(** * r3f-uia-workshop: the scene of [src/App.js]

    A shallow embedding of the components of [src/App.js] (Controls, Plane,
    Box, ShibaGLTF, PlaneGLTF, App) and of the properties the specification
    states about them.

    The file is organised by component:
    - [Hooks]      the two React hook rules the components rely on;
    - [ShibaGLTF]  the asynchronously loaded model and its placeholder;
    - [Box]        hover / active state and the targets handed to the spring;
    - [Spring]     the interpolation engine the targets are handed to;
    - [Controls]   the orbit camera rig and its per-frame update;
    - [Scene]      the declared scene tree and its shadow flags. *)

From Stdlib Require Import String List Bool Arith ZArith Znat Lia.
From Stdlib Require Import QArith Qminmax Qabs Qround Lqa.
Import ListNotations.

Local Open Scope string_scope.

(* ===================================================================== *)
(** ** React hooks *)
(* ===================================================================== *)

Module Hooks.

(** Dependency arrays are compared element by element ([Object.is]); arrays
    of different lengths differ. *)
Fixpoint same_deps {D : Type} (eqb : D -> D -> bool) (a b : list D) : bool :=
  match a, b with
  | [], [] => true
  | x :: a', y :: b' => eqb x y && same_deps eqb a' b'
  | _, _ => false
  end.

(** [useEffect(f, deps)]: [f] runs after the first commit of the instance
    ([prev = None]) and after every later commit whose dependency array
    differs from the one of the previous commit. *)
Definition effect_due {D : Type} (eqb : D -> D -> bool)
  (prev : option (list D)) (deps : list D) : bool :=
  match prev with
  | None => true
  | Some p => negb (same_deps eqb p deps)
  end.

(** The empty dependency array of [ShibaGLTF]: there is nothing to compare,
    so any element type does. *)
Definition no_deps : list unit := [].

Definition unit_eqb (_ _ : unit) : bool := true.

End Hooks.

(* ===================================================================== *)
(** ** ShibaGLTF: the loaded asset *)
(* ===================================================================== *)

Module ShibaGLTF.

Section Component.

(** The scene object produced by the loader (a [THREE.Group]) and the error
    value the loader reports are values the component never looks into. *)
Variable Object3D : Type.
Variable ErrorEvent : Type.

(** The value handed to [onLoad]; the component only reads [.scene]. *)
Record GLTF : Type := mkGLTF { scene : Object3D }.

(** [const [model, setModel] = useState()]: [undefined] until set. *)
Definition Model : Type := option GLTF.

Definition setModel (gltf : GLTF) : Model -> Model := fun _ => Some gltf.

(** What the component returns: [<primitive object={...} />] or [null]. *)
Inductive Element : Type :=
| primitive (object : Object3D).

(** [return model ? <primitive object={model.scene} /> : null] *)
Definition render (model : Model) : option Element :=
  match model with
  | Some m => Some (primitive (scene m))
  | None => None
  end.

(** How a load request ends. *)
Inductive LoadOutcome : Type :=
| Loaded (gltf : GLTF)
| LoadFailed (e : ErrorEvent).

(** The arguments of [GLTFLoader.load(url, onLoad, onProgress, onError)]
    that act on the component; [onError] is optional. *)
Record LoadRequest : Type := mkRequest {
  url : string;
  onLoad : GLTF -> Model -> Model;
  onError : option (ErrorEvent -> Model -> Model)
}.

(** [new GLTFLoader().load('/scene.gltf', setModel)]: no error callback. *)
Definition load_effect : LoadRequest :=
  {| url := "/scene.gltf"; onLoad := setModel; onError := None |}.

(** Modelled from the spec: the asset-fetch primitive of the external 3D
    engine ([GLTFLoader.load] of three.js, which is not part of this
    repository).  Section 4.2 and 6: a request ends once, with a parsed
    fragment or with an error; the fragment goes to [onLoad], the error to
    [onError] when the caller gave one (otherwise it is only logged and the
    caller's state is untouched). *)
Definition settle (req : LoadRequest) (o : LoadOutcome) : Model -> Model :=
  match o with
  | Loaded gltf => onLoad req gltf
  | LoadFailed e =>
      match onError req with
      | Some h => h e
      | None => fun m => m
      end
  end.

(** One mounted instance: the hook state, the dependency array of the last
    commit, the requests still in flight and the log of started fetches. *)
Record Instance : Type := mkInstance {
  model : Model;
  effect_deps : option (list unit);
  inflight : list LoadRequest;
  fetches : list string
}.

(** Commit of a render: the effect of lines 227-229 runs when it is due. *)
Definition commit (i : Instance) : Instance :=
  if Hooks.effect_due Hooks.unit_eqb (effect_deps i) Hooks.no_deps then
    {| model := model i;
       effect_deps := Some Hooks.no_deps;
       inflight := inflight i ++ [load_effect];
       fetches := fetches i ++ [url load_effect] |}
  else
    {| model := model i;
       effect_deps := Some Hooks.no_deps;
       inflight := inflight i;
       fetches := fetches i |}.

Definition mount : Instance :=
  commit {| model := None; effect_deps := None; inflight := []; fetches := [] |}.

(** What can happen to a mounted instance: it is rendered again (its parent
    rendered, or its own state changed), or the loader ends the oldest
    request in flight. *)
Inductive Event : Type :=
| Rerender
| Settled (o : LoadOutcome).

Definition step (i : Instance) (e : Event) : Instance :=
  match e with
  | Rerender => commit i
  | Settled o =>
      match inflight i with
      | [] => i
      | req :: rest =>
          commit {| model := settle req o (model i);
                    effect_deps := effect_deps i;
                    inflight := rest;
                    fetches := fetches i |}
      end
  end.

Definition run (i : Instance) (evs : list Event) : Instance :=
  fold_left step evs i.

(** The subtree the instance contributes to its parent group. *)
Definition subtree (i : Instance) : list Element :=
  match render (model i) with
  | Some el => [el]
  | None => []
  end.

(** The handle as the rest of the program can observe it. *)
Definition resolved (i : Instance) : bool :=
  match model i with Some _ => true | None => false end.

(** Number of changes of the handle along a trace. *)
Fixpoint transitions (i : Instance) (evs : list Event) : nat :=
  match evs with
  | [] => 0
  | e :: evs' =>
      (if Bool.eqb (resolved i) (resolved (step i e)) then 0 else 1)
      + transitions (step i e) evs'
  end.

(** The instance once its only request has ended with [o]. *)
Definition after (o : LoadOutcome) : Instance :=
  {| model := settle load_effect o None;
     effect_deps := Some Hooks.no_deps;
     inflight := [];
     fetches := [url load_effect] |}.

(** Nothing is left to happen: the effect has run and no request is open. *)
Definition quiet (i : Instance) : Prop :=
  effect_deps i = Some Hooks.no_deps /\ inflight i = [].

(** The outcome the loader reported first, if it reported any. *)
Fixpoint first_settled (evs : list Event) : option LoadOutcome :=
  match evs with
  | [] => None
  | Rerender :: evs' => first_settled evs'
  | Settled o :: _ => Some o
  end.

(** Every fetch started by several instances mounted side by side. *)
Definition network_log (insts : list Instance) : list string :=
  concat (map fetches insts).

End Component.

Arguments mkGLTF {Object3D} _.
Arguments scene {Object3D} _.
Arguments primitive {Object3D} _.
Arguments Loaded {Object3D ErrorEvent} _.
Arguments LoadFailed {Object3D ErrorEvent} _.
Arguments Rerender {Object3D ErrorEvent}.
Arguments Settled {Object3D ErrorEvent} _.
Arguments render {Object3D} _.
Arguments mount {Object3D ErrorEvent}.
Arguments step {Object3D ErrorEvent} _ _.
Arguments run {Object3D ErrorEvent} _ _.
Arguments commit {Object3D ErrorEvent} _.
Arguments subtree {Object3D ErrorEvent} _.
Arguments resolved {Object3D ErrorEvent} _.
Arguments transitions {Object3D ErrorEvent} _ _.
Arguments first_settled {Object3D ErrorEvent} _.
Arguments after {Object3D ErrorEvent} _.
Arguments quiet {Object3D ErrorEvent} _.
Arguments load_effect {Object3D ErrorEvent}.
Arguments settle {Object3D ErrorEvent} _ _ _.
Arguments setModel {Object3D} _ _.
Arguments model {Object3D ErrorEvent} _.
Arguments inflight {Object3D ErrorEvent} _.
Arguments fetches {Object3D ErrorEvent} _.
Arguments effect_deps {Object3D ErrorEvent} _.
Arguments network_log {Object3D ErrorEvent} _.

End ShibaGLTF.

(* ===================================================================== *)
(** ** The interpolation engine *)
(* ===================================================================== *)

Module Spring.

Local Open Scope Q_scope.

(** Modelled from the spec: the Interpolation Engine ([useSpring] and the
    [a.] elements of react-spring, which is not part of this repository).  Section 3: an
    animated value has a current value, a target value and an in-flight
    flag.  Section 4.1: [setTarget(key, value)] schedules a new target for a
    named attribute, an unknown key creating a new tracked entry;
    [tick(dt)] advances every tracked value toward its target by an eased
    update rule and returns the keys that changed.  Quantities are rational
    numbers; a vector-valued attribute is tracked component by component. *)
Record AnimatedValue : Type := mkAnimated {
  current : Q;
  target : Q;
  in_flight : bool
}.

Section Easing.

(** Fraction of the remaining distance covered per unit of time. *)
Variable rate : Q.

(** The share of the remaining distance covered by a tick of length [dt],
    kept within [0, 1]. *)
Definition gain (dt : Q) : Q := Qmax 0 (Qmin 1 (rate * dt)).

Definition advance (dt : Q) (v : AnimatedValue) : AnimatedValue :=
  let c := current v + gain dt * (target v - current v) in
  {| current := c; target := target v; in_flight := negb (Qeq_bool c (target v)) |}.

Definition retarget (v : AnimatedValue) (t : Q) : AnimatedValue :=
  {| current := current v; target := t; in_flight := negb (Qeq_bool (current v) t) |}.

(** A value created by its first target starts there, at rest. *)
Definition at_rest (t : Q) : AnimatedValue :=
  {| current := t; target := t; in_flight := false |}.

Definition Engine : Type := list (string * list AnimatedValue).

Fixpoint tracked (key : string) (e : Engine) : option (list AnimatedValue) :=
  match e with
  | [] => None
  | (k, vs) :: e' => if String.eqb k key then Some vs else tracked key e'
  end.

Fixpoint retarget_all (vs : list AnimatedValue) (ts : list Q) : list AnimatedValue :=
  match vs, ts with
  | v :: vs', t :: ts' => retarget v t :: retarget_all vs' ts'
  | _, _ => List.map at_rest ts
  end.

Fixpoint setTarget (key : string) (value : list Q) (e : Engine) : Engine :=
  match e with
  | [] => [(key, List.map at_rest value)]
  | (k, vs) :: e' =>
      if String.eqb k key then (k, retarget_all vs value) :: e'
      else (k, vs) :: setTarget key value e'
  end.

Definition moved (dt : Q) (v : AnimatedValue) : bool :=
  negb (Qeq_bool (current (advance dt v)) (current v)).

Definition tick (dt : Q) (e : Engine) : Engine * list string :=
  (List.map (fun kv => (fst kv, List.map (advance dt) (snd kv))) e,
   List.map fst (List.filter (fun kv => List.existsb (moved dt) (snd kv)) e)).

(** A sequence of ticks on one value and on the whole engine. *)
Definition advance_all (dts : list Q) (v : AnimatedValue) : AnimatedValue :=
  fold_left (fun v dt => advance dt v) dts v.

Definition ticks (dts : list Q) (e : Engine) : Engine :=
  fold_left (fun e dt => fst (tick dt e)) dts e.

End Easing.

Definition currents (key : string) (e : Engine) : list Q :=
  match tracked key e with
  | Some vs => List.map current vs
  | None => []
  end.

Definition targets (key : string) (e : Engine) : list Q :=
  match tracked key e with
  | Some vs => List.map target vs
  | None => []
  end.

(** Distance left to the target. *)
Definition gap (v : AnimatedValue) : Q := Qabs (target v - current v).

(** Every component of [a] is within [eps] of the matching one of [b]. *)
Fixpoint within (eps : Q) (a b : list Q) : Prop :=
  match a, b with
  | [], [] => True
  | x :: a', y :: b' => Qabs (y - x) <= eps /\ within eps a' b'
  | _, _ => False
  end.

(** Current and target both lie in [[lo, hi]]. *)
Definition bounded (lo hi : Q) (v : AnimatedValue) : Prop :=
  (lo <= current v /\ current v <= hi) /\ (lo <= target v /\ target v <= hi).

(** A number of ticks after which a gap of at most [d] has shrunk to at
    most [eps], when every tick covers at least the share [k]. *)
Definition ticks_needed (d eps k : Q) : nat :=
  Z.to_nat (Qceiling (d / (eps * k))).

End Spring.

(* ===================================================================== *)
(** ** Box: hover and active state *)
(* ===================================================================== *)

Module Box.

Local Open Scope Q_scope.

(** [useState(false)] twice. *)
Record State : Type := mkState { hover : bool; active : bool }.

Definition initial : State := {| hover := false; active := false |}.

(** The three events the mesh listens to. *)
Inductive PointerEvent : Type :=
| PointerOver
| PointerOut
| Click.

(** [setHover(true)], [setHover(false)] and [setActive(!active)]; events
    are handled one at a time, each by the handlers of the latest render,
    so [active] is the current flag. *)
Definition handle (s : State) (e : PointerEvent) : State :=
  match e with
  | PointerOver => {| hover := true; active := active s |}
  | PointerOut => {| hover := false; active := active s |}
  | Click => {| hover := hover s; active := negb (active s) |}
  end.

(** The object handed to [useSpring]. *)
Record SpringProps : Type := mkProps { scale : list Q; color : string }.

Definition spring_props (s : State) : SpringProps :=
  {| scale := if active s then [3 # 2; 3 # 2; 3 # 2] else [1; 1; 1];
     color := if hover s then "red" else "gray" |}.

(** A run of the component: the pointer events delivered before each
    frame, frame by frame. *)
Definition Run : Type := list (list PointerEvent).

Fixpoint states (s : State) (r : Run) : list State :=
  match r with
  | [] => []
  | evs :: r' => let s' := fold_left handle evs s in s' :: states s' r'
  end.

Definition color_targets (r : Run) : list string :=
  List.map (fun s => color (spring_props s)) (states initial r).

Definition scale_targets (r : Run) : list (list Q) :=
  List.map (fun s => scale (spring_props s)) (states initial r).

Definition is_hover_event (e : PointerEvent) : bool :=
  match e with PointerOver | PointerOut => true | Click => false end.

Definition is_click (e : PointerEvent) : bool :=
  match e with Click => true | _ => false end.

Definition hover_history (r : Run) : Run := List.map (List.filter is_hover_event) r.

Definition click_history (r : Run) : Run := List.map (List.filter is_click) r.

(** The colour keywords the component uses, as channels in [0, 1]
    ([red] is [#ff0000], [gray] is [#808080]). *)
Definition channels (name : string) : list Q :=
  if String.eqb name "red" then [1; 0; 0]
  else if String.eqb name "gray" then [128 # 255; 128 # 255; 128 # 255]
  else [].

(** [useSpring({ scale: ..., color: ... })] on a render: both keys are
    handed to the engine. *)
Definition useSpring (p : SpringProps) (e : Spring.Engine) : Spring.Engine :=
  Spring.setTarget "color" (channels (color p)) (Spring.setTarget "scale" (scale p) e).

(** A mounted box: its state and the engine that animates its props. *)
Record Instance : Type := mkInstance { state : State; spring : Spring.Engine }.

Definition mount : Instance :=
  {| state := initial; spring := useSpring (spring_props initial) [] |}.

Definition on_event (i : Instance) (e : PointerEvent) : Instance :=
  let s := handle (state i) e in
  {| state := s; spring := useSpring (spring_props s) (spring i) |}.

Definition on_frames (rate : Q) (dts : list Q) (i : Instance) : Instance :=
  {| state := state i; spring := Spring.ticks rate dts (spring i) |}.

(** The life of a mounted box: pointer events and frames, in any order. *)
Inductive Step : Type :=
| Event (e : PointerEvent)
| Frame (dt : Q).

Definition apply_step (rate : Q) (i : Instance) (s : Step) : Instance :=
  match s with
  | Event e => on_event i e
  | Frame dt => on_frames rate [dt] i
  end.

Definition history (rate : Q) (i : Instance) (steps : list Step) : Instance :=
  fold_left (apply_step rate) steps i.

(** The engine tracks the two props of the box, each aimed at what the
    current state asks for and each within the range its targets span. *)
Definition tracking (i : Instance) : Prop :=
  exists ss cs : list Spring.AnimatedValue,
    spring i = [("scale", ss); ("color", cs)]
    /\ List.map Spring.target ss = scale (spring_props (state i))
    /\ List.map Spring.target cs = channels (color (spring_props (state i)))
    /\ Forall (Spring.bounded 1 (3 # 2)) ss
    /\ Forall (Spring.bounded 0 1) cs.

End Box.

(* ===================================================================== *)
(** ** Controls: the orbit camera rig *)
(* ===================================================================== *)

Module Controls.

Local Open Scope Q_scope.

(** [Math.PI], the binary64 number 3.141592653589793, as the rational it
    denotes. *)
Definition Math_PI : Q := 884279719003555 # 281474976710656.

(** [Math.PI / 3], the binary64 number 1.0471975511965976: the quotient
    rounded to the nearest representable number. *)
Definition Math_PI_3 : Q := 4716158501352293 # 4503599627370496.

(** The props of [<orbitControls autoRotate minPolarAngle={Math.PI / 3}
    maxPolarAngle={Math.PI / 3} />]. *)
Record Props : Type := mkProps {
  autoRotate : bool;
  minPolarAngle : Q;
  maxPolarAngle : Q
}.

Definition props : Props :=
  {| autoRotate := true; minPolarAngle := Math_PI_3; maxPolarAngle := Math_PI_3 |}.

(** Modelled from the spec: the Camera Rig Controller ([OrbitControls] of
    three.js and its [update], which is not part of this repository).  Section 4.3: a state machine over
    Idle, Dragging and AutoRotating; pointer-down enters Dragging, which
    accumulates the angle deltas of pointer movement; pointer-up enters
    AutoRotating or Idle depending on configuration; on every tick while
    AutoRotating the azimuthal angle advances by a fixed increment; the
    polar angle is clamped to [minPolarAngle, maxPolarAngle] after every
    update.  Section 5: input is buffered and applied at the next tick. *)
Inductive Mode : Type :=
| Idle
| Dragging
| AutoRotating.

Record Rig : Type := mkRig {
  mode : Mode;
  polarAngle : Q;
  azimuthalAngle : Q;
  deltaPolar : Q;
  deltaAzimuth : Q
}.

Inductive Input : Type :=
| PointerDown
| PointerMove (dAzimuth dPolar : Q)
| PointerUp.

Definition clamp (lo hi x : Q) : Q := Qmax lo (Qmin hi x).

Section Controller.

Variable cfg : Props.

(** The fixed increment of one auto-rotation step. *)
Variable autoRotateStep : Q.

Definition resting : Mode := if autoRotate cfg then AutoRotating else Idle.

Definition start (polar azimuth : Q) : Rig :=
  {| mode := resting; polarAngle := polar; azimuthalAngle := azimuth;
     deltaPolar := 0; deltaAzimuth := 0 |}.

Definition on_input (r : Rig) (i : Input) : Rig :=
  match i with
  | PointerDown =>
      {| mode := Dragging; polarAngle := polarAngle r;
         azimuthalAngle := azimuthalAngle r;
         deltaPolar := deltaPolar r; deltaAzimuth := deltaAzimuth r |}
  | PointerMove da dp =>
      match mode r with
      | Dragging =>
          {| mode := Dragging; polarAngle := polarAngle r;
             azimuthalAngle := azimuthalAngle r;
             deltaPolar := deltaPolar r + dp;
             deltaAzimuth := deltaAzimuth r + da |}
      | _ => r
      end
  | PointerUp =>
      {| mode := resting; polarAngle := polarAngle r;
         azimuthalAngle := azimuthalAngle r;
         deltaPolar := deltaPolar r; deltaAzimuth := deltaAzimuth r |}
  end.

Definition auto_increment (m : Mode) : Q :=
  match m with
  | AutoRotating => autoRotateStep
  | _ => 0
  end.

Definition update (r : Rig) : Rig :=
  {| mode := mode r;
     polarAngle :=
       clamp (minPolarAngle cfg) (maxPolarAngle cfg) (polarAngle r + deltaPolar r);
     azimuthalAngle := azimuthalAngle r + deltaAzimuth r + auto_increment (mode r);
     deltaPolar := 0;
     deltaAzimuth := 0 |}.

(** [useFrame(() => { ref.current.update(); })]: what the component runs
    on every frame it is called for. *)
Definition frame_callback (r : Rig) : Rig := update r.

(** What reaches the rig: input, or a call of the frame callback. *)
Inductive Event : Type :=
| Pointer (i : Input)
| Tick.

Definition step (r : Rig) (e : Event) : Rig :=
  match e with
  | Pointer i => on_input r i
  | Tick => frame_callback r
  end.

Definition run (r : Rig) (evs : list Event) : Rig := fold_left step evs r.

Definition is_tick (e : Event) : bool :=
  match e with Tick => true | Pointer _ => false end.

End Controller.

End Controls.

(* ===================================================================== *)
(** ** The scene tree *)
(* ===================================================================== *)

Module Scene.

Local Open Scope Q_scope.

Inductive Geometry : Type :=
| planeBufferGeometry (width height : Q)
| boxBufferGeometry (width height depth : Q).

(** A colour prop is a keyword or hex string, or the channels an animated
    material currently shows. *)
Inductive Colour : Type :=
| keyword (name : string)
| animated (rgb : list Q).

Inductive Material : Type :=
| meshPhysicalMaterial (color : Colour).

(** The props every object of the tree has, with the defaults of an
    omitted prop. *)
Record Attrs : Type := mkAttrs {
  position : list Q;
  rotation : list Q;
  scale : list Q;
  castShadow : bool;
  receiveShadow : bool
}.

Definition defaults : Attrs :=
  {| position := [0; 0; 0]; rotation := [0; 0; 0]; scale := [1; 1; 1];
     castShadow := false; receiveShadow := false |}.

Section Tree.

Variable Object3D : Type.

Inductive Kind : Type :=
| mesh (geometry : Geometry) (material : Material)
| fog (color : string) (near far : Q)
| ambientLight (intensity : Q)
| spotLight (penumbra : Q)
| orbitControls (p : Controls.Props)
| group
| primitive (object : Object3D).

#[warnings="-register-all"]
Inductive SceneNode : Type :=
| Node (kind : Kind) (attrs : Attrs) (children : list SceneNode).

Definition kind_of (n : SceneNode) : Kind := match n with Node k _ _ => k end.
Definition attrs_of (n : SceneNode) : Attrs := match n with Node _ a _ => a end.

(** [Plane] *)
Definition Plane : SceneNode :=
  Node (mesh (planeBufferGeometry 100 100) (meshPhysicalMaterial (keyword "#f4f4f4")))
       {| position := [0; - (1 # 2); 0];
          rotation := [- Controls.Math_PI / 2; 0; 0];
          scale := scale defaults;
          castShadow := false; receiveShadow := true |}
       [].

(** [PlaneGLTF] *)
Definition PlaneGLTF : SceneNode :=
  Node (mesh (planeBufferGeometry 100 100) (meshPhysicalMaterial (keyword "#f4f4f4")))
       {| position := [0; - 1; 0];
          rotation := [- Controls.Math_PI / 2; 0; 0];
          scale := scale defaults;
          castShadow := false; receiveShadow := true |}
       [].

(** [Box], given what the spring currently shows for its two props. *)
Definition Box (scale_now color_now : list Q) : SceneNode :=
  Node (mesh (boxBufferGeometry 1 1 1) (meshPhysicalMaterial (animated color_now)))
       {| position := position defaults;
          rotation := rotation defaults;
          scale := scale_now;
          castShadow := true; receiveShadow := false |}
       [].

(** [Controls] *)
Definition Controls_node : SceneNode :=
  Node (orbitControls Controls.props) defaults [].

(** [ShibaGLTF]: one [primitive] once the model is there, nothing before. *)
Definition ShibaGLTF (el : option (ShibaGLTF.Element Object3D)) : list SceneNode :=
  match el with
  | Some (ShibaGLTF.primitive o) => [Node (primitive o) defaults []]
  | None => []
  end.

Definition spotLight_node : SceneNode :=
  Node (spotLight 1)
       {| position := [0; 5; 10];
          rotation := rotation defaults;
          scale := scale defaults;
          castShadow := true; receiveShadow := false |}
       [].

(** The children of [Canvas] in [App]. *)
Definition App (el : option (ShibaGLTF.Element Object3D)) : list SceneNode :=
  [ Node (fog "#666" 10 25) defaults [];
    Node (ambientLight (1 # 2)) defaults [];
    spotLight_node;
    Controls_node;
    Node group defaults (PlaneGLTF :: ShibaGLTF el) ].

(** The alternative group of [App], left in a comment there. *)
Definition App_with_box (scale_now color_now : list Q) : list SceneNode :=
  [ Node (fog "#666" 10 25) defaults [];
    Node (ambientLight (1 # 2)) defaults [];
    spotLight_node;
    Controls_node;
    Node group defaults [Plane; Box scale_now color_now] ].

(** Every node of a tree, parents before children, in order. *)
Fixpoint nodes (n : SceneNode) : list SceneNode :=
  match n with
  | Node k a cs => n :: flat_map nodes cs
  end.

(** Modelled from the spec: the draw primitive of the external 3D engine
    (the renderer behind [Canvas], which is not part of this repository).  Section 4.4 and 6:
    the tree sent to the draw step carries each node's declared shadow
    flags; a node takes part in the shadow-map pass when it casts, and is
    drawn shadowed when it receives and some other drawn node casts. *)
Record DrawItem : Type := mkItem {
  what : Kind;
  casts : bool;
  receives : bool
}.

Definition item_of (n : SceneNode) : DrawItem :=
  {| what := kind_of n;
     casts := castShadow (attrs_of n);
     receives := receiveShadow (attrs_of n) |}.

Fixpoint draw_items (n : SceneNode) : list DrawItem :=
  match n with
  | Node k a cs => item_of n :: flat_map draw_items cs
  end.

Definition draw_list (tree : list SceneNode) : list DrawItem :=
  flat_map draw_items tree.

Definition shadow_map_pass (items : list DrawItem) : list DrawItem :=
  List.filter casts items.

Definition shadowed (it : DrawItem) (occluders : list DrawItem) : bool :=
  receives it && List.existsb casts occluders.

End Tree.

Arguments Node {Object3D} _ _ _.
Arguments mesh {Object3D} _ _.
Arguments fog {Object3D} _ _ _.
Arguments ambientLight {Object3D} _.
Arguments spotLight {Object3D} _.
Arguments orbitControls {Object3D} _.
Arguments group {Object3D}.
Arguments primitive {Object3D} _.
Arguments kind_of {Object3D} _.
Arguments attrs_of {Object3D} _.
Arguments nodes {Object3D} _.
Arguments draw_items {Object3D} _.
Arguments item_of {Object3D} _.
Arguments draw_list {Object3D} _.
Arguments shadow_map_pass {Object3D} _.
Arguments shadowed {Object3D} _ _.
Arguments casts {Object3D} _.
Arguments receives {Object3D} _.
Arguments what {Object3D} _.

End Scene.

(* ===================================================================== *)
(** ** App: the frame loop *)
(* ===================================================================== *)

Module App.

Local Open Scope Q_scope.

Section Scheduler.

Variable Object3D : Type.
Variable ErrorEvent : Type.
Variable autoRotateStep : Q.

(** What one frame hands to the draw primitive. *)
Record Drawn : Type := mkDrawn {
  camera_polar : Q;
  camera_azimuth : Q;
  items : list (Scene.DrawItem Object3D)
}.

Record World : Type := mkWorld {
  rig : Controls.Rig;
  shiba : ShibaGLTF.Instance Object3D ErrorEvent;
  drawn : list Drawn
}.

(** [camera={{ position: [0, 0, 5] }}] looking at the origin: a quarter
    turn down from the pole, no azimuth. *)
Definition mount : World :=
  {| rig := Controls.start Controls.props (Controls.Math_PI / 2) 0;
     shiba := ShibaGLTF.mount;
     drawn := [] |}.

Inductive Event : Type :=
| Pointer (i : Controls.Input)
| Loader (o : ShibaGLTF.LoadOutcome Object3D ErrorEvent)
| NextFrame.

(** Modelled from the spec: the Frame Scheduler (the render loop of
    [Canvas], which is not part of this repository).  Section 4.5: per frame, in this order, the
    camera rig tick, the interpolation tick (this tree has no animated
    value), the reconciliation of the tree described by the components,
    and the draw. *)
Definition frame (w : World) : World :=
  let r := Controls.frame_callback Controls.props autoRotateStep (rig w) in
  let tree := Scene.App Object3D (ShibaGLTF.render (ShibaGLTF.model (shiba w))) in
  {| rig := r;
     shiba := shiba w;
     drawn := drawn w ++ [ {| camera_polar := Controls.polarAngle r;
                              camera_azimuth := Controls.azimuthalAngle r;
                              items := Scene.draw_list tree |} ] |}.

Definition step (w : World) (e : Event) : World :=
  match e with
  | Pointer i =>
      {| rig := Controls.on_input Controls.props (rig w) i;
         shiba := shiba w; drawn := drawn w |}
  | Loader o =>
      {| rig := rig w;
         shiba := ShibaGLTF.step (shiba w) (ShibaGLTF.Settled o);
         drawn := drawn w |}
  | NextFrame => frame w
  end.

Definition run (w : World) (evs : list Event) : World := fold_left step evs w.

Definition is_frame (e : Event) : bool :=
  match e with NextFrame => true | _ => false end.

Definition is_loader (e : Event) : bool :=
  match e with Loader _ => true | _ => false end.

(** A drawn frame in which the loaded-asset subtree is left out. *)
Definition omits_asset (d : Drawn) : Prop :=
  items d = Scene.draw_list (Scene.App Object3D None).

End Scheduler.

Arguments Pointer {Object3D ErrorEvent} _.
Arguments Loader {Object3D ErrorEvent} _.
Arguments NextFrame {Object3D ErrorEvent}.
Arguments rig {Object3D ErrorEvent} _.
Arguments shiba {Object3D ErrorEvent} _.
Arguments drawn {Object3D ErrorEvent} _.
Arguments mount {Object3D ErrorEvent}.
Arguments run {Object3D ErrorEvent} _ _ _.
Arguments step {Object3D ErrorEvent} _ _ _.
Arguments frame {Object3D ErrorEvent} _ _.
Arguments is_frame {Object3D ErrorEvent} _.
Arguments is_loader {Object3D ErrorEvent} _.
Arguments omits_asset {Object3D} _.
Arguments items {Object3D} _.
Arguments camera_polar {Object3D} _.
Arguments camera_azimuth {Object3D} _.

End App.

(* ===================================================================== *)
(** * Properties *)
(* ===================================================================== *)

(** ** The components on small inputs *)

(** A model reported at the third event shows from then on. *)
Example shiba_timeline_example :
  let trace := [ShibaGLTF.Rerender; ShibaGLTF.Rerender;
                ShibaGLTF.Settled (ShibaGLTF.Loaded (ShibaGLTF.mkGLTF 7%nat));
                ShibaGLTF.Rerender] in
  List.map (fun k => ShibaGLTF.subtree
                       (ShibaGLTF.run (@ShibaGLTF.mount nat string) (firstn k trace)))
           [0; 1; 2; 3; 4]%nat
  = [[]; []; []; [ShibaGLTF.primitive 7%nat]; [ShibaGLTF.primitive 7%nat]].
Proof. reflexivity. Qed.

(** Re-rendering a mounted instance starts no second fetch. *)
Example shiba_rerender_example :
  ShibaGLTF.fetches
    (ShibaGLTF.run (@ShibaGLTF.mount nat string)
       [ShibaGLTF.Rerender; ShibaGLTF.Rerender; ShibaGLTF.Rerender])
  = ["/scene.gltf"].
Proof. reflexivity. Qed.

(** Hovering and clicking the box. *)
Example box_targets_example :
  Box.spring_props (fold_left Box.handle [Box.PointerOver; Box.Click] Box.initial)
  = {| Box.scale := [3 # 2; 3 # 2; 3 # 2]%Q; Box.color := "red" |}
  /\ Box.spring_props (fold_left Box.handle
                         [Box.PointerOver; Box.Click; Box.PointerOut; Box.Click]
                         Box.initial)
  = {| Box.scale := [1; 1; 1]%Q; Box.color := "gray" |}.
Proof. split; reflexivity. Qed.

(** The first tick brings the camera from a quarter turn to the lock, and
    a large drag does not move it. *)
Example controls_lock_example :
  let r := Controls.start Controls.props (Controls.Math_PI / 2) 0 in
  Controls.polarAngle r = (Controls.Math_PI / 2)%Q
  /\ Controls.polarAngle (Controls.update Controls.props (1 # 100) r)
     = Controls.Math_PI_3
  /\ Controls.polarAngle
       (Controls.run Controls.props (1 # 100) r
          [Controls.Pointer Controls.PointerDown;
           Controls.Pointer (Controls.PointerMove 0 (- 50));
           Controls.Tick])
     = Controls.Math_PI_3.
Proof. repeat split; reflexivity. Qed.

(** [Math.PI / 3] as computed is within half a unit in the last place of
    the exact third of [Math.PI]. *)
Example controls_pi_3_rounding :
  (Qabs (Controls.Math_PI_3 - Controls.Math_PI / 3) <= 1 # 9007199254740992)%Q.
Proof. vm_compute. discriminate. Qed.

(** One eased tick covering half the gap. *)
Example spring_tick_example :
  (Spring.current (Spring.advance 30 (1 # 60) (Spring.retarget (Spring.at_rest 1) (3 # 2)))
   == 5 # 4)%Q.
Proof. vm_compute. reflexivity. Qed.

(** What casts in the tree of [App] once the model is there. *)
Example scene_shadow_pass_example :
  Scene.shadow_map_pass
    (Scene.draw_list (Scene.App nat (Some (ShibaGLTF.primitive 7%nat))))
  = [Scene.item_of (Scene.spotLight_node nat)].
Proof. reflexivity. Qed.

(** ** ShibaGLTF *)

Section ShibaGLTF_facts.

Context {Object3D ErrorEvent : Type}.

Local Abbreviation Instance := (ShibaGLTF.Instance Object3D ErrorEvent).
Local Abbreviation Event := (ShibaGLTF.Event Object3D ErrorEvent).
Local Abbreviation Outcome := (ShibaGLTF.LoadOutcome Object3D ErrorEvent).

Lemma shiba_commit_again (i : Instance) :
  ShibaGLTF.effect_deps i = Some Hooks.no_deps -> ShibaGLTF.commit i = i.
Proof.
  destruct i as [m d fl fs]; simpl; intros ->.
  reflexivity.
Qed.

Lemma shiba_quiet_step (i : Instance) (e : Event) :
  ShibaGLTF.quiet i -> ShibaGLTF.step i e = i.
Proof.
  intros [Hd Hf]. destruct e as [|o]; simpl.
  - now apply shiba_commit_again.
  - now rewrite Hf.
Qed.

Lemma shiba_run_cons (i : Instance) (e : Event) (evs : list Event) :
  ShibaGLTF.run i (e :: evs) = ShibaGLTF.run (ShibaGLTF.step i e) evs.
Proof. reflexivity. Qed.

Lemma shiba_quiet_run (i : Instance) (evs : list Event) :
  ShibaGLTF.quiet i -> ShibaGLTF.run i evs = i.
Proof.
  intros Hq. induction evs as [|e evs IH]; [reflexivity|].
  rewrite shiba_run_cons, (shiba_quiet_step i e Hq). exact IH.
Qed.

Lemma shiba_transitions_cons (i : Instance) (e : Event) (evs : list Event) :
  ShibaGLTF.transitions i (e :: evs) =
  ((if Bool.eqb (ShibaGLTF.resolved i) (ShibaGLTF.resolved (ShibaGLTF.step i e))
    then 0 else 1) + ShibaGLTF.transitions (ShibaGLTF.step i e) evs)%nat.
Proof. reflexivity. Qed.

Lemma shiba_quiet_transitions (i : Instance) (evs : list Event) :
  ShibaGLTF.quiet i -> ShibaGLTF.transitions i evs = 0%nat.
Proof.
  intros Hq. induction evs as [|e evs IH]; [reflexivity|].
  rewrite shiba_transitions_cons, (shiba_quiet_step i e Hq), IH.
  now rewrite Bool.eqb_reflx.
Qed.

Lemma shiba_after_quiet (o : Outcome) : ShibaGLTF.quiet (ShibaGLTF.after o).
Proof. split; reflexivity. Qed.

Lemma shiba_mount_settled (o : Outcome) :
  ShibaGLTF.step ShibaGLTF.mount (ShibaGLTF.Settled o) = ShibaGLTF.after o.
Proof. reflexivity. Qed.

Lemma shiba_mount_rerender :
  ShibaGLTF.step (ShibaGLTF.mount : Instance) ShibaGLTF.Rerender = ShibaGLTF.mount.
Proof. reflexivity. Qed.

(** Every reachable state of an instance, read off the trace. *)
Lemma shiba_run_mount (evs : list Event) :
  ShibaGLTF.run ShibaGLTF.mount evs =
  match ShibaGLTF.first_settled evs with
  | None => ShibaGLTF.mount
  | Some o => ShibaGLTF.after o
  end.
Proof.
  induction evs as [|[|o] evs IH].
  - reflexivity.
  - rewrite shiba_run_cons, shiba_mount_rerender. exact IH.
  - rewrite shiba_run_cons, shiba_mount_settled.
    exact (shiba_quiet_run _ evs (shiba_after_quiet o)).
Qed.

Lemma shiba_transitions_mount (evs : list Event) :
  ShibaGLTF.transitions ShibaGLTF.mount evs =
  match ShibaGLTF.first_settled evs with
  | Some (ShibaGLTF.Loaded _) => 1%nat
  | _ => 0%nat
  end.
Proof.
  induction evs as [|[|o] evs IH].
  - reflexivity.
  - rewrite shiba_transitions_cons, shiba_mount_rerender. exact IH.
  - rewrite shiba_transitions_cons, shiba_mount_settled.
    rewrite (shiba_quiet_transitions _ evs (shiba_after_quiet o)).
    destruct o; reflexivity.
Qed.

Lemma shiba_first_settled_app (pre post : list Event) :
  ShibaGLTF.first_settled (pre ++ post) =
  match ShibaGLTF.first_settled pre with
  | Some o => Some o
  | None => ShibaGLTF.first_settled post
  end.
Proof.
  induction pre as [|[|o] pre IH]; simpl; auto.
Qed.

End ShibaGLTF_facts.

Section ShibaGLTF_claims.

Context {Object3D ErrorEvent : Type}.

Local Abbreviation Event := (ShibaGLTF.Event Object3D ErrorEvent).

(** C2. At every moment of an instance's life (after any trace of
    re-renders and loader reports), the subtree it contributes is
    determined by the first report of the loader: before any report, or
    after a failure, it renders [null] and adds no node to its group; from
    a successful report on it is exactly one [primitive] whose object is
    the fragment [gltf.scene] itself, whatever the type of fragments is. *)
Theorem shiba_subtree_by_frame (evs : list Event) :
  ShibaGLTF.render (ShibaGLTF.model (ShibaGLTF.run ShibaGLTF.mount evs)) =
    match ShibaGLTF.first_settled evs with
    | Some (ShibaGLTF.Loaded g) => Some (ShibaGLTF.primitive (ShibaGLTF.scene g))
    | _ => None
    end
  /\ Scene.ShibaGLTF Object3D
       (ShibaGLTF.render (ShibaGLTF.model (ShibaGLTF.run ShibaGLTF.mount evs))) =
    match ShibaGLTF.first_settled evs with
    | Some (ShibaGLTF.Loaded g) =>
        [Scene.Node (Scene.primitive (ShibaGLTF.scene g)) Scene.defaults []]
    | _ => []
    end.
Proof.
  rewrite shiba_run_mount.
  destruct (ShibaGLTF.first_settled evs) as [[g|e]|]; split; reflexivity.
Qed.

(** C5 (amended). The handle starts unresolved; along any trace it changes
    at most once, from unresolved to resolved, and does so exactly when the
    first report of the loader is a success; when the first report is a
    failure it stays unresolved; once resolved, no later event changes
    it. *)
Theorem shiba_handle_resolves_at_most_once (evs more : list Event) :
  ShibaGLTF.model (ShibaGLTF.mount : ShibaGLTF.Instance Object3D ErrorEvent) = None
  /\ ShibaGLTF.transitions ShibaGLTF.mount evs =
       match ShibaGLTF.first_settled evs with
       | Some (ShibaGLTF.Loaded _) => 1%nat
       | _ => 0%nat
       end
  /\ ShibaGLTF.model (ShibaGLTF.run ShibaGLTF.mount evs) =
       match ShibaGLTF.first_settled evs with
       | Some (ShibaGLTF.Loaded g) => Some g
       | _ => None
       end
  /\ (ShibaGLTF.resolved (ShibaGLTF.run ShibaGLTF.mount evs) = true ->
      ShibaGLTF.model (ShibaGLTF.run ShibaGLTF.mount (evs ++ more)) =
      ShibaGLTF.model (ShibaGLTF.run ShibaGLTF.mount evs)).
Proof.
  split; [reflexivity|]. split; [apply shiba_transitions_mount|].
  rewrite !shiba_run_mount, shiba_first_settled_app.
  destruct (ShibaGLTF.first_settled evs) as [[g|e]|]; split; try reflexivity;
    unfold ShibaGLTF.resolved; simpl; intros H; discriminate H.
Qed.

(** C9. Whatever re-renders and loader reports an instance goes through,
    the fetches it has started are exactly one fetch of ['/scene.gltf'];
    and any number of instances, each with a life of its own, have started
    one fetch each. *)
Theorem shiba_fetches_once (evs : list Event) (lives : list (list Event)) :
  ShibaGLTF.fetches (ShibaGLTF.run ShibaGLTF.mount evs) = ["/scene.gltf"]
  /\ ShibaGLTF.network_log (List.map (ShibaGLTF.run ShibaGLTF.mount) lives) =
     repeat "/scene.gltf" (List.length lives).
Proof.
  assert (H : forall t : list Event,
             ShibaGLTF.fetches (ShibaGLTF.run ShibaGLTF.mount t) = ["/scene.gltf"]).
  { intros t. rewrite shiba_run_mount.
    destruct (ShibaGLTF.first_settled t); reflexivity. }
  split; [apply H|].
  unfold ShibaGLTF.network_log.
  induction lives as [|t lives IH]; [reflexivity|].
  simpl. rewrite H, IH. reflexivity.
Qed.

End ShibaGLTF_claims.

(** A concrete instance: a resolved handle and
    a late failure report. *)
Lemma shiba_handle_resolves_at_most_once_witness :
  let evs := [ShibaGLTF.Rerender; ShibaGLTF.Settled (ShibaGLTF.Loaded (ShibaGLTF.mkGLTF 7%nat))] in
  let more := [ShibaGLTF.Settled (ShibaGLTF.LoadFailed "late"); ShibaGLTF.Rerender] in
  ShibaGLTF.resolved (ShibaGLTF.run (@ShibaGLTF.mount nat string) evs) = true
  /\ ShibaGLTF.model (ShibaGLTF.run (@ShibaGLTF.mount nat string) (evs ++ more)) =
     ShibaGLTF.model (ShibaGLTF.run ShibaGLTF.mount evs).
Proof.
  intros evs more. split; [reflexivity|].
  destruct (@shiba_handle_resolves_at_most_once nat string evs more) as (_ & _ & _ & H).
  apply H. reflexivity.
Defined.

(** C5, as stated, fails: a request that has ended in a failure has not
    moved the handle at all. *)
Lemma shiba_failure_is_no_transition :
  ~ (forall evs : list (ShibaGLTF.Event nat string),
        ShibaGLTF.first_settled evs <> None ->
        ShibaGLTF.transitions ShibaGLTF.mount evs = 1%nat).
Proof.
  intros H.
  specialize (H [ShibaGLTF.Settled (ShibaGLTF.LoadFailed "404")]).
  assert (E : ShibaGLTF.transitions (@ShibaGLTF.mount nat string)
                [ShibaGLTF.Settled (ShibaGLTF.LoadFailed "404")] = 0%nat)
    by reflexivity.
  rewrite E in H. discriminate H. simpl. discriminate.
Qed.

(** C3, as stated, fails: after a failed request the handle is what it was
    while the request was pending, and nothing read from the handle tells
    which error occurred. *)
Lemma shiba_failure_not_recorded :
  ShibaGLTF.model
    (ShibaGLTF.run (@ShibaGLTF.mount nat string)
       [ShibaGLTF.Settled (ShibaGLTF.LoadFailed "404")]) =
  ShibaGLTF.model (@ShibaGLTF.mount nat string)
  /\ ~ (exists descriptor : ShibaGLTF.Model nat -> option string,
          forall e : string,
            descriptor
              (ShibaGLTF.model
                 (ShibaGLTF.run (@ShibaGLTF.mount nat string)
                    [ShibaGLTF.Settled (ShibaGLTF.LoadFailed e)])) = Some e).
Proof.
  split; [reflexivity|].
  intros [descriptor H].
  pose proof (H "network") as H1. pose proof (H "malformed") as H2.
  simpl in H1, H2. rewrite H1 in H2. discriminate H2.
Qed.

(** ** App: the frame loop and a failed load *)

Section App_facts.

Context {Object3D ErrorEvent : Type}.
Variable autoRotateStep : Q.

Local Abbreviation World := (App.World Object3D ErrorEvent).
Local Abbreviation AppEvent := (App.Event Object3D ErrorEvent).
Local Abbreviation arun := (App.run autoRotateStep).
Local Abbreviation astep := (App.step autoRotateStep).

Lemma app_run_cons (w : World) (e : AppEvent) (evs : list AppEvent) :
  arun w (e :: evs) = arun (astep w e) evs.
Proof. reflexivity. Qed.

Lemma app_run_app (w : World) (pre post : list AppEvent) :
  arun w (pre ++ post) = arun (arun w pre) post.
Proof. unfold App.run. apply fold_left_app. Qed.

(** The loop draws one frame per [NextFrame], whatever else happens. *)
Lemma app_drawn_length (evs : list AppEvent) (w : World) :
  List.length (App.drawn (arun w evs)) =
  (List.length (App.drawn w) + List.length (List.filter App.is_frame evs))%nat.
Proof.
  revert w. induction evs as [|e evs IH]; intros w.
  - simpl. lia.
  - rewrite app_run_cons, IH. destruct e; simpl; try lia.
    rewrite length_app. simpl. lia.
Qed.

(** A frame drawn while the model is unset leaves the asset out. *)
Lemma app_frame_omits (w : World) :
  ShibaGLTF.model (App.shiba w) = None ->
  Forall App.omits_asset (App.drawn w) ->
  Forall App.omits_asset (App.drawn (App.frame autoRotateStep w)).
Proof.
  intros Hm Hd. unfold App.frame. simpl.
  apply Forall_app. split; [exact Hd|].
  constructor; [|constructor].
  unfold App.omits_asset. simpl. rewrite Hm. reflexivity.
Qed.

(** Before the loader reports, the instance is as mounted. *)
Lemma app_before_report (pre : list AppEvent) (w : World) :
  App.shiba w = ShibaGLTF.mount ->
  Forall App.omits_asset (App.drawn w) ->
  existsb App.is_loader pre = false ->
  App.shiba (arun w pre) = ShibaGLTF.mount
  /\ Forall App.omits_asset (App.drawn (arun w pre)).
Proof.
  revert w. induction pre as [|e pre IH]; intros w Hs Hd Hp.
  - split; assumption.
  - rewrite app_run_cons. destruct e as [i|o|]; simpl in Hp; try discriminate Hp.
    + apply IH; assumption.
    + apply IH; [exact Hs| |exact Hp].
      apply app_frame_omits; [rewrite Hs; reflexivity|exact Hd].
Qed.

(** Once the instance is quiet with no model, it stays so. *)
Lemma app_after_failure (post : list AppEvent) (w : World) :
  ShibaGLTF.quiet (App.shiba w) ->
  ShibaGLTF.model (App.shiba w) = None ->
  Forall App.omits_asset (App.drawn w) ->
  ShibaGLTF.model (App.shiba (arun w post)) = None
  /\ Forall App.omits_asset (App.drawn (arun w post)).
Proof.
  revert w. induction post as [|e post IH]; intros w Hq Hm Hd.
  - split; assumption.
  - rewrite app_run_cons. destruct e as [i|o|].
    + apply IH; assumption.
    + assert (E : App.shiba (astep w (App.Loader o)) = App.shiba w)
        by exact (shiba_quiet_step (App.shiba w) (ShibaGLTF.Settled o) Hq).
      apply IH; [rewrite E; exact Hq|rewrite E; exact Hm|exact Hd].
    + apply IH; [exact Hq|exact Hm|].
      apply app_frame_omits; assumption.
Qed.

(** C3 (amended). When the request fails, the handle stays unresolved (it
    keeps no error and is not told apart from a pending one); every frame
    drawn before and after the failure leaves the asset subtree out; and
    the loop goes on drawing one frame per scheduled frame. *)
Theorem app_failed_load_omits_subtree
  (pre post : list AppEvent) (e : ErrorEvent) :
  existsb App.is_loader pre = false ->
  let w := arun App.mount (pre ++ App.Loader (ShibaGLTF.LoadFailed e) :: post) in
  ShibaGLTF.model (App.shiba w) = None
  /\ ShibaGLTF.subtree (App.shiba w) = []
  /\ Forall App.omits_asset (App.drawn w)
  /\ List.length (App.drawn w) =
     List.length (List.filter App.is_frame (pre ++ post)).
Proof.
  intros Hpre w.
  destruct (app_before_report pre App.mount eq_refl (Forall_nil _) Hpre) as [Hs Hd].
  assert (Hw : w = arun (astep (arun App.mount pre)
                           (App.Loader (ShibaGLTF.LoadFailed e))) post).
  { unfold w. rewrite app_run_app, app_run_cons. reflexivity. }
  destruct (app_after_failure post
              (astep (arun App.mount pre) (App.Loader (ShibaGLTF.LoadFailed e))))
    as [Hm Hf].
  - simpl. rewrite Hs. split; reflexivity.
  - simpl. rewrite Hs. reflexivity.
  - exact Hd.
  - rewrite <- Hw in Hm, Hf.
    split; [exact Hm|]. split; [unfold ShibaGLTF.subtree; rewrite Hm; reflexivity|].
    split; [exact Hf|].
    unfold w. rewrite app_drawn_length. simpl.
    rewrite !filter_app. simpl. reflexivity.
Qed.

End App_facts.

(** A concrete instance: a drag and two frames
    around a failed load. *)
Lemma app_failed_load_omits_subtree_witness :
  let pre := [App.NextFrame; App.Pointer Controls.PointerDown] in
  let post := [App.Pointer (Controls.PointerMove (1 # 10) 2); App.NextFrame] in
  let w := App.run (1 # 100) (@App.mount nat string)
             (pre ++ App.Loader (ShibaGLTF.LoadFailed "404") :: post) in
  existsb App.is_loader pre = false
  /\ ShibaGLTF.model (App.shiba w) = None
  /\ ShibaGLTF.subtree (App.shiba w) = []
  /\ Forall App.omits_asset (App.drawn w)
  /\ List.length (App.drawn w) = 2%nat.
Proof.
  intros pre post w. split; [reflexivity|].
  exact (@app_failed_load_omits_subtree nat string (1 # 100) pre post "404" eq_refl).
Defined.

(** ** Box: what drives each target *)

Section Box_facts.

Lemma box_hover_of_start (evs : list Box.PointerEvent) (s1 s2 : Box.State) :
  Box.hover s1 = Box.hover s2 ->
  Box.hover (fold_left Box.handle evs s1) = Box.hover (fold_left Box.handle evs s2).
Proof.
  revert s1 s2. induction evs as [|e evs IH]; intros s1 s2 H; [exact H|].
  simpl. apply IH. destruct e; simpl; auto.
Qed.

Lemma box_active_of_start (evs : list Box.PointerEvent) (s1 s2 : Box.State) :
  Box.active s1 = Box.active s2 ->
  Box.active (fold_left Box.handle evs s1) = Box.active (fold_left Box.handle evs s2).
Proof.
  revert s1 s2. induction evs as [|e evs IH]; intros s1 s2 H; [exact H|].
  simpl. apply IH. destruct e; simpl; auto. now rewrite H.
Qed.

(** Clicks can be dropped from a frame without changing [hover]. *)
Lemma box_hover_ignores_clicks (evs : list Box.PointerEvent) (s : Box.State) :
  Box.hover (fold_left Box.handle evs s) =
  Box.hover (fold_left Box.handle (List.filter Box.is_hover_event evs) s).
Proof.
  revert s. induction evs as [|e evs IH]; intros s; [reflexivity|].
  destruct e; simpl; try apply IH.
  rewrite IH. apply box_hover_of_start. reflexivity.
Qed.

(** Pointer-over and pointer-out can be dropped without changing [active]. *)
Lemma box_active_ignores_hover (evs : list Box.PointerEvent) (s : Box.State) :
  Box.active (fold_left Box.handle evs s) =
  Box.active (fold_left Box.handle (List.filter Box.is_click evs) s).
Proof.
  revert s. induction evs as [|e evs IH]; intros s; [reflexivity|].
  destruct e; simpl; try apply IH;
    rewrite IH; apply box_active_of_start; reflexivity.
Qed.

Lemma box_colors_by_hover (r1 r2 : Box.Run) (s1 s2 : Box.State) :
  Box.hover s1 = Box.hover s2 ->
  Box.hover_history r1 = Box.hover_history r2 ->
  List.map (fun s => Box.color (Box.spring_props s)) (Box.states s1 r1) =
  List.map (fun s => Box.color (Box.spring_props s)) (Box.states s2 r2).
Proof.
  revert r2 s1 s2. induction r1 as [|f1 r1 IH]; intros [|f2 r2] s1 s2 Hs Hh;
    try discriminate Hh; [reflexivity|].
  injection Hh as Hf Hr. simpl.
  assert (E : Box.hover (fold_left Box.handle f1 s1) =
              Box.hover (fold_left Box.handle f2 s2)).
  { rewrite (box_hover_ignores_clicks f1), (box_hover_ignores_clicks f2), Hf.
    now apply box_hover_of_start. }
  f_equal; [now rewrite E | now apply IH].
Qed.

Lemma box_scales_by_active (r1 r2 : Box.Run) (s1 s2 : Box.State) :
  Box.active s1 = Box.active s2 ->
  Box.click_history r1 = Box.click_history r2 ->
  List.map (fun s => Box.scale (Box.spring_props s)) (Box.states s1 r1) =
  List.map (fun s => Box.scale (Box.spring_props s)) (Box.states s2 r2).
Proof.
  revert r2 s1 s2. induction r1 as [|f1 r1 IH]; intros [|f2 r2] s1 s2 Hs Hh;
    try discriminate Hh; [reflexivity|].
  injection Hh as Hf Hr. simpl.
  assert (E : Box.active (fold_left Box.handle f1 s1) =
              Box.active (fold_left Box.handle f2 s2)).
  { rewrite (box_active_ignores_hover f1), (box_active_ignores_hover f2), Hf.
    now apply box_active_of_start. }
  f_equal; [now rewrite E | now apply IH].
Qed.

(** C10. Two runs of the box whose pointer-over / pointer-out histories
    agree frame by frame have the same colour target in every frame,
    whatever their clicks; two runs whose click histories agree frame by
    frame have the same scale target in every frame, whatever their
    pointer-over / pointer-out events. *)
Theorem box_targets_independent (r1 r2 : Box.Run) :
  (Box.hover_history r1 = Box.hover_history r2 ->
   Box.color_targets r1 = Box.color_targets r2)
  /\ (Box.click_history r1 = Box.click_history r2 ->
      Box.scale_targets r1 = Box.scale_targets r2).
Proof.
  split; intros H.
  - now apply box_colors_by_hover.
  - now apply box_scales_by_active.
Qed.

End Box_facts.

(** A concrete instance: the same hovering with and
    without clicks, and the same clicks with and without hovering. *)
Lemma box_targets_independent_witness :
  let quiet := [[Box.PointerOver]; []; [Box.PointerOut]] in
  let busy := [[Box.Click; Box.PointerOver]; [Box.Click; Box.Click];
               [Box.PointerOut; Box.Click]] in
  let still := [[Box.Click]; [Box.Click; Box.Click]; [Box.Click]] in
  (Box.hover_history quiet = Box.hover_history busy
   /\ Box.color_targets quiet = Box.color_targets busy)
  /\ (Box.click_history still = Box.click_history busy
      /\ Box.scale_targets still = Box.scale_targets busy).
Proof.
  intros quiet busy still. split; (split; [reflexivity|]).
  - destruct (box_targets_independent quiet busy) as [H _]. apply H. reflexivity.
  - destruct (box_targets_independent still busy) as [_ H]. apply H. reflexivity.
Defined.

(** ** Controls: the polar clamp and auto-rotation *)

Section Controls_facts.

Local Open Scope Q_scope.

(** With equal bounds the clamp returns the bound itself. *)
Lemma clamp_pinned (c x : Q) : Controls.clamp c c x = c.
Proof.
  unfold Controls.clamp, Qmax, Qmin, GenericMinMax.gmax, GenericMinMax.gmin.
  destruct (c ?= x) eqn:E.
  - now rewrite (proj1 (Qeq_alt c c) (Qeq_refl c)).
  - now rewrite (proj1 (Qeq_alt c c) (Qeq_refl c)).
  - now rewrite E.
Qed.

Lemma clamp_in_range (lo hi x : Q) :
  lo <= hi -> lo <= Controls.clamp lo hi x /\ Controls.clamp lo hi x <= hi.
Proof.
  intros H. unfold Controls.clamp. split.
  - apply Q.le_max_l.
  - apply Q.max_lub; [exact H | apply Q.le_min_l].
Qed.

Variable cfg : Controls.Props.
Variable autoRotateStep : Q.

Local Abbreviation crun := (Controls.run cfg autoRotateStep).
Local Abbreviation cstep := (Controls.step cfg autoRotateStep).

Lemma controls_input_keeps_polar (r : Controls.Rig) (i : Controls.Input) :
  Controls.polarAngle (Controls.on_input cfg r i) = Controls.polarAngle r.
Proof.
  destruct i; simpl; try reflexivity. destruct (Controls.mode r); reflexivity.
Qed.

(** Any property of every clamped value holds of the polar angle from the
    first tick on. *)
Lemma controls_polar_after_tick (P : Q -> Prop) :
  (forall x, P (Controls.clamp (Controls.minPolarAngle cfg)
                               (Controls.maxPolarAngle cfg) x)) ->
  forall (evs : list Controls.Event) (r : Controls.Rig),
    P (Controls.polarAngle r) \/ existsb Controls.is_tick evs = true ->
    P (Controls.polarAngle (crun r evs)).
Proof.
  intros HP. induction evs as [|e evs IH]; intros r H.
  - destruct H as [H|H]; [exact H|discriminate H].
  - change (crun r (e :: evs)) with (crun (cstep r e) evs).
    apply IH. destruct e as [i|].
    + simpl. rewrite controls_input_keeps_polar.
      destruct H as [H|H]; [left; exact H|right; exact H].
    + left. simpl. apply HP.
Qed.

End Controls_facts.

Section Controls_claims.

Local Open Scope Q_scope.

Context {Object3D ErrorEvent : Type}.

(** In the application every drawn frame sees the locked polar angle. *)
Lemma app_frames_polar_locked (autoRotateStep : Q)
  (evs : list (App.Event Object3D ErrorEvent)) (w : App.World Object3D ErrorEvent) :
  Forall (fun d => App.camera_polar d = Controls.Math_PI_3) (App.drawn w) ->
  Forall (fun d => App.camera_polar d = Controls.Math_PI_3)
         (App.drawn (App.run autoRotateStep w evs)).
Proof.
  revert w. induction evs as [|e evs IH]; intros w H; [exact H|].
  change (App.run autoRotateStep w (e :: evs))
    with (App.run autoRotateStep (App.step autoRotateStep w e) evs).
  apply IH. destruct e as [i|o|]; simpl; try exact H.
  apply Forall_app. split; [exact H|].
  constructor; [|constructor]. simpl. apply clamp_pinned.
Qed.

(** C1. With the props of [Controls] (both polar bounds [Math.PI / 3]),
    from any state of the rig and for any sequence of pointer input and
    ticks, the polar angle is exactly [Math.PI / 3] from the first tick on,
    and so is the polar angle of every frame the application draws; for
    any props with [minPolarAngle <= maxPolarAngle], the polar angle lies
    within the two bounds from the first tick on, however large the
    buffered drag. *)
Theorem controls_polar_clamped
  (cfg : Controls.Props) (autoRotateStep : Q) (r : Controls.Rig)
  (evs : list Controls.Event) (frames : list (App.Event Object3D ErrorEvent)) :
  existsb Controls.is_tick evs = true ->
  Controls.polarAngle (Controls.run Controls.props autoRotateStep r evs)
    = Controls.Math_PI_3
  /\ Forall (fun d => App.camera_polar d = Controls.Math_PI_3)
            (App.drawn (App.run autoRotateStep App.mount frames))
  /\ (Controls.minPolarAngle cfg <= Controls.maxPolarAngle cfg ->
      Controls.minPolarAngle cfg
        <= Controls.polarAngle (Controls.run cfg autoRotateStep r evs)
      /\ Controls.polarAngle (Controls.run cfg autoRotateStep r evs)
        <= Controls.maxPolarAngle cfg).
Proof.
  intros Ht. split; [|split].
  - apply (controls_polar_after_tick Controls.props autoRotateStep
             (fun x => x = Controls.Math_PI_3)); [|right; exact Ht].
    intros x. apply clamp_pinned.
  - apply app_frames_polar_locked. constructor.
  - intros Hle.
    apply (controls_polar_after_tick cfg autoRotateStep
             (fun x => Controls.minPolarAngle cfg <= x
                       /\ x <= Controls.maxPolarAngle cfg)); [|right; exact Ht].
    intros x. apply clamp_in_range. exact Hle.
Qed.


End Controls_claims.

(** A concrete instance: a drag of several turns between
    two ticks, with the props of [Controls] and with a wider range. *)
Lemma controls_polar_clamped_witness :
  let wide := {| Controls.autoRotate := false;
                 Controls.minPolarAngle := 1 # 2;
                 Controls.maxPolarAngle := 2 |} in
  let r := Controls.start Controls.props (Controls.Math_PI / 2) 0 in
  let evs := [Controls.Tick; Controls.Pointer Controls.PointerDown;
              Controls.Pointer (Controls.PointerMove 3 1000);
              Controls.Pointer Controls.PointerUp; Controls.Tick] in
  existsb Controls.is_tick evs = true
  /\ Controls.polarAngle (Controls.run Controls.props (1 # 100) r evs)
     = Controls.Math_PI_3
  /\ ((1 # 2) <= Controls.polarAngle (Controls.run wide (1 # 100) r evs)
      /\ Controls.polarAngle (Controls.run wide (1 # 100) r evs) <= 2)%Q.
Proof.
  intros wide r evs. split; [reflexivity|].
  destruct (@controls_polar_clamped nat string wide (1 # 100) r evs [] eq_refl)
    as (H1 & _ & H2).
  split; [exact H1|]. apply H2. unfold wide. simpl. discriminate.
Defined.


(** ** The interpolation engine: easing toward the target *)

Section Spring_facts.

Local Open Scope Q_scope.

Variable rate : Q.

Local Abbreviation gain := (Spring.gain rate).
Local Abbreviation advance := (Spring.advance rate).
Local Abbreviation advance_all := (Spring.advance_all rate).

Lemma spring_gain_range (dt : Q) : 0 <= gain dt /\ gain dt <= 1.
Proof.
  unfold Spring.gain. split.
  - apply Q.le_max_l.
  - apply Q.max_lub; [discriminate | apply Q.le_min_l].
Qed.

Lemma spring_gain_mono (d1 d2 : Q) : 0 <= rate -> d1 <= d2 -> gain d1 <= gain d2.
Proof.
  intros Hr Hd. unfold Spring.gain.
  apply Q.max_le_compat_l, Q.min_le_compat_l.
  rewrite (Qmult_comm rate d1), (Qmult_comm rate d2).
  now apply Qmult_le_compat_r.
Qed.

Lemma spring_gain_pos (d : Q) : 0 < rate -> 0 < d -> 0 < gain d.
Proof.
  intros Hr Hd. unfold Spring.gain.
  apply Qlt_le_trans with (Qmin 1 (rate * d)); [|apply Q.le_max_r].
  apply Q.min_glb_lt; [reflexivity|].
  rewrite <- (Qmult_0_l d). apply Qmult_lt_compat_r; assumption.
Qed.

Lemma spring_target_advance (dt : Q) (v : Spring.AnimatedValue) :
  Spring.target (advance dt v) = Spring.target v.
Proof. reflexivity. Qed.

Lemma spring_advance_all_cons (dt : Q) (dts : list Q) (v : Spring.AnimatedValue) :
  advance_all (dt :: dts) v = advance_all dts (advance dt v).
Proof. reflexivity. Qed.

Lemma spring_target_advance_all (dts : list Q) (v : Spring.AnimatedValue) :
  Spring.target (advance_all dts v) = Spring.target v.
Proof.
  revert v. induction dts as [|dt dts IH]; intros v; [reflexivity|].
  rewrite spring_advance_all_cons, IH. reflexivity.
Qed.

(** A tick moves the current value toward the target and not past it. *)
Lemma spring_advance_between (dt : Q) (v : Spring.AnimatedValue) :
  (Spring.current v <= Spring.target v ->
   Spring.current v <= Spring.current (advance dt v)
   /\ Spring.current (advance dt v) <= Spring.target v)
  /\ (Spring.target v <= Spring.current v ->
      Spring.target v <= Spring.current (advance dt v)
      /\ Spring.current (advance dt v) <= Spring.current v).
Proof.
  destruct (spring_gain_range dt) as [H0 H1].
  unfold Spring.advance. simpl.
  split; intros H; split; nra.
Qed.

(** The gap shrinks by the share the tick covers. *)
Lemma spring_gap_advance (dt : Q) (v : Spring.AnimatedValue) :
  Spring.gap (advance dt v) == (1 - gain dt) * Spring.gap v.
Proof.
  destruct (spring_gain_range dt) as [H0 H1].
  unfold Spring.gap, Spring.advance. simpl.
  assert (E : Spring.target v - (Spring.current v + gain dt * (Spring.target v - Spring.current v))
              == (1 - gain dt) * (Spring.target v - Spring.current v)) by ring.
  rewrite (Qabs_wd _ _ E), Qabs_Qmult.
  rewrite (Qabs_pos (1 - gain dt)); [reflexivity|lra].
Qed.

Lemma spring_gap_nonneg (v : Spring.AnimatedValue) : 0 <= Spring.gap v.
Proof. apply Qabs_nonneg. Qed.

Lemma spring_gap_advance_le (dt : Q) (v : Spring.AnimatedValue) :
  Spring.gap (advance dt v) <= Spring.gap v.
Proof.
  destruct (spring_gain_range dt) as [H0 H1].
  pose proof (spring_gap_nonneg v) as Hg.
  rewrite spring_gap_advance. nra.
Qed.

Lemma spring_gap_advance_all_le (dts : list Q) (v : Spring.AnimatedValue) :
  Spring.gap (advance_all dts v) <= Spring.gap v.
Proof.
  revert v. induction dts as [|dt dts IH]; intros v; [apply Qle_refl|].
  rewrite spring_advance_all_cons.
  eapply Qle_trans; [apply IH|apply spring_gap_advance_le].
Qed.

Lemma inject_nat_succ (n : nat) :
  inject_Z (Z.of_nat (S n)) == inject_Z (Z.of_nat n) + 1.
Proof. rewrite Nat2Z.inj_succ. unfold Z.succ. rewrite inject_Z_plus. reflexivity. Qed.

Lemma inject_nat_nonneg (n : nat) : 0 <= inject_Z (Z.of_nat n).
Proof. change 0 with (inject_Z 0). rewrite <- Zle_Qle. lia. Qed.

(** After [n] ticks that each cover at least the share [k], the gap times
    [1 + n k] is at most the gap at the start. *)
Lemma spring_gap_decay (k : Q) (dts : list Q) (v : Spring.AnimatedValue) :
  0 <= k ->
  Forall (fun dt => k <= gain dt) dts ->
  Spring.gap (advance_all dts v) * (1 + inject_Z (Z.of_nat (List.length dts)) * k)
  <= Spring.gap v.
Proof.
  intros Hk. revert v. induction dts as [|dt dts IH]; intros v Hall.
  - change (advance_all [] v) with v.
    change (inject_Z (Z.of_nat (List.length (@nil Q)))) with 0.
    generalize (Spring.gap v). intros g. nra.
  - inversion Hall as [|? ? Hdt Hrest]; subst.
    rewrite spring_advance_all_cons.
    specialize (IH (advance dt v) Hrest).
    pose proof (spring_gap_advance_all_le dts (advance dt v)) as Hmono.
    pose proof (spring_gap_advance dt v) as Hstep.
    pose proof (spring_gap_nonneg (advance_all dts (advance dt v))) as Hf.
    pose proof (spring_gap_nonneg v) as Hv.
    pose proof (inject_nat_nonneg (List.length dts)) as Hn.
    destruct (spring_gain_range dt) as [_ H1].
    change (List.length (dt :: dts)) with (S (List.length dts)).
    rewrite inject_nat_succ.
    set (gf := Spring.gap (advance_all dts (advance dt v))) in *.
    set (g1 := Spring.gap (advance dt v)) in *.
    set (g := Spring.gap v) in *.
    set (n := inject_Z (Z.of_nat (List.length dts))) in *.
    set (a := gain dt) in *.
    assert (Hg1 : g1 <= (1 - k) * g) by (rewrite Hstep; nra).
    nra.
Qed.

Lemma spring_ticks_needed_enough (d eps k : Q) (n : nat) :
  0 < eps -> 0 < k ->
  (Spring.ticks_needed d eps k <= n)%nat ->
  d <= inject_Z (Z.of_nat n) * (eps * k).
Proof.
  intros He Hk Hn. unfold Spring.ticks_needed in Hn.
  assert (Hpos : 0 < eps * k) by nra.
  assert (Hq : d / (eps * k) <= inject_Z (Z.of_nat n)).
  { eapply Qle_trans; [apply Qle_ceiling|]. rewrite <- Zle_Qle. lia. }
  assert (E : d == (eps * k) * (d / (eps * k))).
  { rewrite Qmult_div_r; [reflexivity|]. intros Hz. rewrite Hz in Hpos.
    apply (Qlt_irrefl 0 Hpos). }
  rewrite E at 1. rewrite (Qmult_comm (inject_Z _)).
  apply Qmult_le_l; assumption.
Qed.

(** Enough ticks, each of at least [dmin], bring the gap under [eps]. *)
Lemma spring_gap_small (d eps dmin : Q) (dts : list Q) (v : Spring.AnimatedValue) :
  0 < rate -> 0 < eps -> 0 < dmin ->
  Spring.gap v <= d ->
  Forall (fun dt => dmin <= dt) dts ->
  (Spring.ticks_needed d eps (gain dmin) <= List.length dts)%nat ->
  Spring.gap (advance_all dts v) <= eps.
Proof.
  intros Hr He Hd Hgap Hall Hn.
  pose proof (spring_gain_pos dmin Hr Hd) as Hk.
  assert (Hall' : Forall (fun dt => gain dmin <= gain dt) dts).
  { eapply Forall_impl; [|exact Hall]. intros dt H.
    apply spring_gain_mono; [apply Qlt_le_weak; exact Hr|exact H]. }
  pose proof (spring_gap_decay (gain dmin) dts v (Qlt_le_weak _ _ Hk) Hall') as Hdecay.
  pose proof (spring_ticks_needed_enough d eps (gain dmin) _ He Hk Hn) as Hlarge.
  pose proof (inject_nat_nonneg (List.length dts)) as Hnn.
  destruct (Qlt_le_dec eps (Spring.gap (advance_all dts v))) as [Hbig|Hok];
    [exfalso|exact Hok].
  set (gf := Spring.gap (advance_all dts v)) in *.
  set (n := inject_Z (Z.of_nat (List.length dts))) in *.
  set (k := gain dmin) in *.
  set (g := Spring.gap v) in *.
  assert (Hnk : 0 <= n * k) by nra.
  assert (Hlt : eps * (1 + n * k) < gf * (1 + n * k))
    by (apply Qmult_lt_compat_r; [lra|exact Hbig]).
  lra.
Qed.

(** Two values equal as rationals stay so under the same ticks. *)
Lemma spring_advance_all_deterministic (dts : list Q) (v1 v2 : Spring.AnimatedValue) :
  Spring.current v1 == Spring.current v2 ->
  Spring.target v1 == Spring.target v2 ->
  Spring.current (advance_all dts v1) == Spring.current (advance_all dts v2).
Proof.
  revert v1 v2. induction dts as [|dt dts IH]; intros v1 v2 Hc Ht; [exact Hc|].
  rewrite !spring_advance_all_cons. apply IH.
  - unfold Spring.advance. simpl. rewrite Hc, Ht. reflexivity.
  - exact Ht.
Qed.

End Spring_facts.

(** C7. Once a target [t] is committed to an animated value, every tick,
    of any length and from any state, leaves the value between where it
    was and the target (so the gap never grows and the target is never
    passed: the overshoot is 0); any sequence of ticks of at least [dmin]
    each that is long enough brings the value within [eps] of [t]; the
    target itself is untouched by ticks; and the outcome is determined by
    the value and the tick lengths. *)
Theorem spring_eases_to_target
  (rate : Q) (v0 : Spring.AnimatedValue) (t eps dmin dt : Q) (dts : list Q) :
  (0 < rate)%Q -> (0 < eps)%Q -> (0 < dmin)%Q ->
  Forall (fun d => (dmin <= d)%Q) dts ->
  (Spring.ticks_needed (Spring.gap (Spring.retarget v0 t)) eps (Spring.gain rate dmin)
   <= List.length dts)%nat ->
  let v := Spring.retarget v0 t in
  Spring.target v = t
  /\ Spring.current v = Spring.current v0
  /\ (forall w : Spring.AnimatedValue,
        (Spring.gap (Spring.advance rate dt w) <= Spring.gap w)%Q
        /\ ((Spring.current w <= Spring.target w)%Q ->
            (Spring.current w <= Spring.current (Spring.advance rate dt w))%Q
            /\ (Spring.current (Spring.advance rate dt w) <= Spring.target w)%Q)
        /\ ((Spring.target w <= Spring.current w)%Q ->
            (Spring.target w <= Spring.current (Spring.advance rate dt w))%Q
            /\ (Spring.current (Spring.advance rate dt w) <= Spring.current w)%Q))
  /\ (Spring.gap (Spring.advance_all rate dts v) <= eps)%Q
  /\ Spring.target (Spring.advance_all rate dts v) = t
  /\ (forall v' : Spring.AnimatedValue,
        (Spring.current v' == Spring.current v)%Q ->
        (Spring.target v' == t)%Q ->
        (Spring.current (Spring.advance_all rate dts v')
         == Spring.current (Spring.advance_all rate dts v))%Q).
Proof.
  intros Hr He Hd Hall Hn v.
  split; [reflexivity|]. split; [reflexivity|]. split; [|split; [|split]].
  - intros w. split; [apply spring_gap_advance_le|].
    apply spring_advance_between.
  - apply (spring_gap_small rate (Spring.gap v) eps dmin); try assumption.
    apply Qle_refl.
  - apply spring_target_advance_all.
  - intros v' Hc Ht. apply spring_advance_all_deterministic; assumption.
Qed.

(** A concrete instance: a scale component at rest at 1,
    aimed at 3/2, after four frames. *)
Lemma spring_eases_to_target_witness :
  let v0 := Spring.at_rest 1 in
  let dts := [1 # 60; 1 # 60; 1 # 50; 1 # 60]%Q in
  (Spring.gap (Spring.advance_all 30 dts (Spring.retarget v0 (3 # 2))) <= 1 # 4)%Q
  /\ Spring.target (Spring.advance_all 30 dts (Spring.retarget v0 (3 # 2))) = (3 # 2)%Q.
Proof.
  intros v0 dts.
  assert (Hall : Forall (fun d => (1 # 60 <= d)%Q) dts)
    by (repeat constructor; discriminate).
  assert (Hn : (Spring.ticks_needed (Spring.gap (Spring.retarget v0 (3 # 2))) (1 # 4)
                  (Spring.gain 30 (1 # 60)) <= List.length dts)%nat)
    by (vm_compute; lia).
  destruct (spring_eases_to_target 30 v0 (3 # 2) (1 # 4) (1 # 60) (1 # 60) dts
              eq_refl eq_refl eq_refl Hall Hn) as (_ & _ & _ & Hgap & Htgt & _).
  split; assumption.
Defined.

(** ** Box and the engine: targets and convergence *)

Section Box_spring_facts.

Local Open Scope Q_scope.

Lemma spring_retarget_all_targets (vs : list Spring.AnimatedValue) (ts : list Q) :
  List.map Spring.target (Spring.retarget_all vs ts) = ts.
Proof.
  revert ts. induction vs as [|v vs IH]; intros ts.
  - simpl. destruct ts; simpl; [reflexivity|].
    f_equal. induction ts as [|t ts IHt]; simpl; [reflexivity|now rewrite IHt].
  - destruct ts as [|t ts]; simpl; [reflexivity|]. now rewrite IH.
Qed.

Lemma spring_at_rest_bounded (lo hi : Q) (ts : list Q) :
  Forall (fun t => lo <= t /\ t <= hi) ts ->
  Forall (Spring.bounded lo hi) (List.map Spring.at_rest ts).
Proof.
  induction 1 as [|t ts Ht _ IH]; simpl; constructor; [|exact IH].
  unfold Spring.bounded. simpl. tauto.
Qed.

Lemma spring_retarget_all_bounded (lo hi : Q)
  (vs : list Spring.AnimatedValue) (ts : list Q) :
  Forall (Spring.bounded lo hi) vs ->
  Forall (fun t => lo <= t /\ t <= hi) ts ->
  Forall (Spring.bounded lo hi) (Spring.retarget_all vs ts).
Proof.
  intros Hvs. revert ts. induction Hvs as [|v vs Hv _ IH]; intros ts Hts.
  - destruct ts; simpl; [constructor|]. now apply (spring_at_rest_bounded lo hi (q :: ts)).
  - destruct Hts as [|t ts Ht Hts]; simpl; [constructor|].
    constructor; [|now apply IH].
    unfold Spring.bounded in *. simpl. tauto.
Qed.

Lemma spring_advance_bounded (rate lo hi dt : Q) (v : Spring.AnimatedValue) :
  Spring.bounded lo hi v -> Spring.bounded lo hi (Spring.advance rate dt v).
Proof.
  intros [[Hc1 Hc2] [Ht1 Ht2]].
  destruct (spring_advance_between rate dt v) as [Hup Hdown].
  unfold Spring.bounded. rewrite spring_target_advance.
  split; [|tauto].
  destruct (Qlt_le_dec (Spring.target v) (Spring.current v)) as [H|H].
  - destruct (Hdown (Qlt_le_weak _ _ H)) as [H1 H2]. split; lra.
  - destruct (Hup H) as [H1 H2]. split; lra.
Qed.

Lemma spring_bounded_gap (lo hi : Q) (v : Spring.AnimatedValue) :
  Spring.bounded lo hi v -> Spring.gap v <= hi - lo.
Proof.
  intros [[Hc1 Hc2] [Ht1 Ht2]]. unfold Spring.gap.
  apply Qabs_Qle_condition. split; lra.
Qed.

(** Ticks act on each tracked value on its own. *)
Lemma spring_ticks_two (rate : Q) (dts : list Q) (k1 k2 : string)
  (ss cs : list Spring.AnimatedValue) :
  Spring.ticks rate dts [(k1, ss); (k2, cs)] =
  [(k1, List.map (Spring.advance_all rate dts) ss);
   (k2, List.map (Spring.advance_all rate dts) cs)].
Proof.
  revert ss cs. induction dts as [|dt dts IH]; intros ss cs.
  - unfold Spring.ticks, Spring.advance_all. simpl. now rewrite !map_id.
  - change (Spring.ticks rate (dt :: dts) [(k1, ss); (k2, cs)])
      with (Spring.ticks rate dts
              [(k1, List.map (Spring.advance rate dt) ss);
               (k2, List.map (Spring.advance rate dt) cs)]).
    rewrite IH, !map_map. reflexivity.
Qed.

Lemma spring_within_after (rate eps : Q) (dts : list Q)
  (vs : list Spring.AnimatedValue) :
  Forall (fun v => Spring.gap (Spring.advance_all rate dts v) <= eps) vs ->
  Spring.within eps
    (List.map Spring.current (List.map (Spring.advance_all rate dts) vs))
    (List.map Spring.target vs).
Proof.
  induction 1 as [|v vs Hv _ IH]; simpl; [exact I|].
  split; [|exact IH].
  unfold Spring.gap in Hv. now rewrite spring_target_advance_all in Hv.
Qed.

Lemma box_scale_in_range (s : Box.State) :
  Forall (fun t => 1 <= t /\ t <= 3 # 2) (Box.scale (Box.spring_props s)).
Proof.
  unfold Box.spring_props. simpl.
  destruct (Box.active s); repeat constructor; discriminate.
Qed.

Lemma box_color_in_range (s : Box.State) :
  Forall (fun t => 0 <= t /\ t <= 1)
         (Box.channels (Box.color (Box.spring_props s))).
Proof.
  unfold Box.spring_props. simpl.
  destruct (Box.hover s); repeat constructor; discriminate.
Qed.

Lemma box_mount_tracking : Box.tracking Box.mount.
Proof.
  exists (List.map Spring.at_rest [1; 1; 1]),
         (List.map Spring.at_rest [128 # 255; 128 # 255; 128 # 255]).
  split; [reflexivity|]. split; [reflexivity|]. split; [reflexivity|].
  split; apply spring_at_rest_bounded; repeat constructor; discriminate.
Qed.

Lemma box_step_tracking (rate : Q) (i : Box.Instance) (s : Box.Step) :
  Box.tracking i -> Box.tracking (Box.apply_step rate i s).
Proof.
  intros (ss & cs & Hsp & Hts & Htc & Hbs & Hbc).
  destruct s as [e|dt].
  - exists (Spring.retarget_all ss (Box.scale (Box.spring_props (Box.handle (Box.state i) e)))),
           (Spring.retarget_all cs
              (Box.channels (Box.color (Box.spring_props (Box.handle (Box.state i) e))))).
    split; [|split; [|split; [|split]]].
    + simpl. unfold Box.useSpring. rewrite Hsp. reflexivity.
    + apply spring_retarget_all_targets.
    + apply spring_retarget_all_targets.
    + apply spring_retarget_all_bounded; [exact Hbs|apply box_scale_in_range].
    + apply spring_retarget_all_bounded; [exact Hbc|apply box_color_in_range].
  - exists (List.map (Spring.advance_all rate [dt]) ss),
           (List.map (Spring.advance_all rate [dt]) cs).
    split; [|split; [|split; [|split]]].
    + change (Box.spring (Box.apply_step rate i (Box.Frame dt)))
        with (Spring.ticks rate [dt] (Box.spring i)).
      rewrite Hsp. apply spring_ticks_two.
    + simpl Box.state. rewrite <- Hts, map_map. reflexivity.
    + simpl Box.state. rewrite <- Htc, map_map. reflexivity.
    + apply Forall_map. eapply Forall_impl; [|exact Hbs].
      intros v Hv. now apply spring_advance_bounded.
    + apply Forall_map. eapply Forall_impl; [|exact Hbc].
      intros v Hv. now apply spring_advance_bounded.
Qed.

Lemma box_history_tracking (rate : Q) (steps : list Box.Step) (i : Box.Instance) :
  Box.tracking i -> Box.tracking (Box.history rate i steps).
Proof.
  revert i. induction steps as [|s steps IH]; intros i H; [exact H|].
  change (Box.history rate i (s :: steps))
    with (Box.history rate (Box.apply_step rate i s) steps).
  apply IH. now apply box_step_tracking.
Qed.

End Box_spring_facts.

(** C4. At any point of the life of a mounted box (after any pointer
    events and frames), the colour handed to the spring is ['red'] when
    [hover] is set and ['gray'] otherwise, the scale is [[1.5, 1.5, 1.5]]
    when [active] is set and [[1, 1, 1]] otherwise, and these are the
    targets the engine holds; a pointer-over sets [hover], a click flips
    [active]; and while the state is held, enough frames of at least
    [dmin] each bring the current scale and colour within [eps] of those
    targets. *)
Theorem box_reaches_targets
  (rate eps dmin : Q) (past : list Box.Step) (dts : list Q) :
  (0 < rate)%Q -> (0 < eps)%Q -> (0 < dmin)%Q ->
  Forall (fun d => (dmin <= d)%Q) dts ->
  (Spring.ticks_needed 1 eps (Spring.gain rate dmin) <= List.length dts)%nat ->
  let i := Box.history rate Box.mount past in
  Box.color (Box.spring_props (Box.state i))
    = (if Box.hover (Box.state i) then "red" else "gray")
  /\ Box.scale (Box.spring_props (Box.state i))
    = (if Box.active (Box.state i) then [3 # 2; 3 # 2; 3 # 2] else [1; 1; 1])%Q
  /\ Spring.targets "color" (Box.spring i)
    = (if Box.hover (Box.state i) then [1; 0; 0]
       else [128 # 255; 128 # 255; 128 # 255])%Q
  /\ Spring.targets "scale" (Box.spring i)
    = (if Box.active (Box.state i) then [3 # 2; 3 # 2; 3 # 2] else [1; 1; 1])%Q
  /\ Box.hover (Box.state (Box.on_event i Box.PointerOver)) = true
  /\ Box.active (Box.state (Box.on_event i Box.Click)) = negb (Box.active (Box.state i))
  /\ Spring.within eps
       (Spring.currents "scale" (Box.spring (Box.on_frames rate dts i)))
       (Spring.targets "scale" (Box.spring i))
  /\ Spring.within eps
       (Spring.currents "color" (Box.spring (Box.on_frames rate dts i)))
       (Spring.targets "color" (Box.spring i)).
Proof.
  intros Hr He Hd Hall Hn i.
  destruct (box_history_tracking rate past Box.mount box_mount_tracking)
    as (ss & cs & Hsp & Hts & Htc & Hbs & Hbc).
  fold i in Hsp, Hts, Htc.
  assert (Hclose : forall lo hi vs, (hi - lo <= 1)%Q ->
            Forall (Spring.bounded lo hi) vs ->
            Forall (fun v => (Spring.gap (Spring.advance_all rate dts v) <= eps)%Q) vs).
  { intros lo hi vs Hw Hb. eapply Forall_impl; [|exact Hb].
    intros v Hv. apply (spring_gap_small rate 1 eps dmin); try assumption.
    eapply Qle_trans; [apply (spring_bounded_gap lo hi v Hv)|exact Hw]. }
  assert (Hframes : Box.spring (Box.on_frames rate dts i) =
                    [("scale", List.map (Spring.advance_all rate dts) ss);
                     ("color", List.map (Spring.advance_all rate dts) cs)]).
  { change (Box.spring (Box.on_frames rate dts i))
      with (Spring.ticks rate dts (Box.spring i)).
    rewrite Hsp. apply spring_ticks_two. }
  assert (Htgs : Spring.targets "scale" (Box.spring i) = List.map Spring.target ss)
    by (rewrite Hsp; reflexivity).
  assert (Htgc : Spring.targets "color" (Box.spring i) = List.map Spring.target cs)
    by (rewrite Hsp; reflexivity).
  split; [reflexivity|]. split; [reflexivity|].
  split; [rewrite Htgc, Htc; unfold Box.spring_props; simpl;
          destruct (Box.hover (Box.state i)); reflexivity|].
  split; [rewrite Htgs, Hts; reflexivity|].
  split; [reflexivity|]. split; [reflexivity|].
  rewrite Htgs, Htgc, Hframes. split.
  - apply (spring_within_after rate eps dts ss).
    apply (Hclose 1 (3 # 2))%Q; [discriminate|exact Hbs].
  - apply (spring_within_after rate eps dts cs).
    apply (Hclose 0 1)%Q; [discriminate|exact Hbc].
Qed.

(** A concrete instance: pointer-over, then a click, then
    four frames with both flags held. *)
Lemma box_reaches_targets_witness :
  let past := [Box.Frame (1 # 60); Box.Event Box.PointerOver; Box.Event Box.Click] in
  let dts := [1 # 60; 1 # 60; 1 # 60; 1 # 60]%Q in
  let i := Box.history 30 Box.mount past in
  Box.state i = {| Box.hover := true; Box.active := true |}
  /\ Spring.targets "scale" (Box.spring i) = [3 # 2; 3 # 2; 3 # 2]%Q
  /\ Spring.targets "color" (Box.spring i) = [1; 0; 0]%Q
  /\ Spring.within (1 # 2)
       (Spring.currents "scale" (Box.spring (Box.on_frames 30 dts i)))
       [3 # 2; 3 # 2; 3 # 2]%Q
  /\ Spring.within (1 # 2)
       (Spring.currents "color" (Box.spring (Box.on_frames 30 dts i)))
       [1; 0; 0]%Q.
Proof.
  intros past dts i.
  assert (Hall : Forall (fun d => (1 # 60 <= d)%Q) dts)
    by (repeat constructor; discriminate).
  assert (Hn : (Spring.ticks_needed 1 (1 # 2) (Spring.gain 30 (1 # 60))
                <= List.length dts)%nat)
    by (vm_compute; lia).
  destruct (box_reaches_targets 30 (1 # 2) (1 # 60) past dts
              eq_refl eq_refl eq_refl Hall Hn)
    as (_ & _ & _ & _ & _ & _ & Hs & Hc).
  split; [reflexivity|]. split; [reflexivity|]. split; [reflexivity|].
  split; [exact Hs|exact Hc].
Defined.

(** ** The scene tree: shadow flags *)

Section Scene_facts.

Context {Object3D : Type}.

Local Abbreviation SceneNode := (Scene.SceneNode Object3D).

(** The draw step sees one item per node, in the order of the tree. *)
Lemma scene_draw_items_nodes :
  forall n : SceneNode, Scene.draw_items n = List.map Scene.item_of (Scene.nodes n).
Proof.
  fix IH 1. intros [k a cs]. simpl. f_equal.
  induction cs as [|c cs IHcs]; simpl; [reflexivity|].
  rewrite map_app, <- IHcs, IH. reflexivity.
Qed.

Lemma scene_draw_list_nodes (tree : list SceneNode) :
  Scene.draw_list tree = List.map Scene.item_of (flat_map Scene.nodes tree).
Proof.
  unfold Scene.draw_list. induction tree as [|n tree IH]; simpl; [reflexivity|].
  now rewrite map_app, <- IH, scene_draw_items_nodes.
Qed.

Lemma scene_filter_items (ns : list SceneNode) :
  List.filter Scene.casts (List.map Scene.item_of ns) =
  List.map Scene.item_of
    (List.filter (fun n => Scene.castShadow (Scene.attrs_of n)) ns).
Proof.
  induction ns as [|n ns IH]; simpl; [reflexivity|].
  destruct (Scene.castShadow (Scene.attrs_of n)); simpl; now rewrite IH.
Qed.

(** C8. The items the draw step receives are the nodes of the tree, in
    order, and each item's [casts] and [receives] are the [castShadow] and
    [receiveShadow] its node declares; the shadow-map pass is made of
    exactly the nodes that declare [castShadow], so a node that does not
    is never in it and a node of the tree that does is; a node is drawn
    shadowed exactly when it declares [receiveShadow] and some occluder
    casts, so a node that does not declare it is drawn unshadowed whatever
    the occluders; both planes declare [receiveShadow], the box and the
    spot light declare [castShadow]. *)
Theorem scene_shadow_flags
  (tree : list SceneNode) (occluders : list (Scene.DrawItem Object3D))
  (scale_now color_now : list Q) :
  Scene.draw_list tree = List.map Scene.item_of (flat_map Scene.nodes tree)
  /\ List.map (fun it => (Scene.what it, Scene.casts it, Scene.receives it))
              (Scene.draw_list tree)
     = List.map (fun n => (Scene.kind_of n,
                           Scene.castShadow (Scene.attrs_of n),
                           Scene.receiveShadow (Scene.attrs_of n)))
                (flat_map Scene.nodes tree)
  /\ Scene.shadow_map_pass (Scene.draw_list tree) =
     List.map Scene.item_of
       (List.filter (fun n => Scene.castShadow (Scene.attrs_of n))
                    (flat_map Scene.nodes tree))
  /\ (forall n : SceneNode,
        Scene.castShadow (Scene.attrs_of n) = false ->
        ~ In (Scene.item_of n) (Scene.shadow_map_pass (Scene.draw_list tree)))
  /\ (forall n : SceneNode,
        In n (flat_map Scene.nodes tree) ->
        Scene.castShadow (Scene.attrs_of n) = true ->
        In (Scene.item_of n) (Scene.shadow_map_pass (Scene.draw_list tree)))
  /\ (forall n : SceneNode,
        Scene.receiveShadow (Scene.attrs_of n) = false ->
        Scene.shadowed (Scene.item_of n) occluders = false)
  /\ (forall n : SceneNode,
        Scene.shadowed (Scene.item_of n) occluders
        = Scene.receiveShadow (Scene.attrs_of n)
          && List.existsb Scene.casts occluders)
  /\ Scene.receiveShadow (Scene.attrs_of (Scene.Plane Object3D)) = true
  /\ Scene.receiveShadow (Scene.attrs_of (Scene.PlaneGLTF Object3D)) = true
  /\ Scene.castShadow (Scene.attrs_of (Scene.Box Object3D scale_now color_now)) = true
  /\ Scene.castShadow (Scene.attrs_of (Scene.spotLight_node Object3D)) = true.
Proof.
  assert (Hpass : Scene.shadow_map_pass (Scene.draw_list tree) =
                  List.map Scene.item_of
                    (List.filter (fun n => Scene.castShadow (Scene.attrs_of n))
                                 (flat_map Scene.nodes tree))).
  { unfold Scene.shadow_map_pass.
    rewrite scene_draw_list_nodes. apply scene_filter_items. }
  split; [apply scene_draw_list_nodes|].
  split; [rewrite scene_draw_list_nodes, map_map; reflexivity|].
  split; [exact Hpass|].
  split.
  { intros n Hn Hin. unfold Scene.shadow_map_pass in Hin.
    apply filter_In in Hin. destruct Hin as [_ Hc].
    simpl in Hc. rewrite Hn in Hc. discriminate Hc. }
  split.
  { intros n Hin Hc. rewrite Hpass. apply in_map.
    apply filter_In. split; assumption. }
  split.
  { intros n Hn. unfold Scene.shadowed. simpl. rewrite Hn. reflexivity. }
  split; [intros n; reflexivity|].
  repeat split.
Qed.

End Scene_facts.

(** A concrete instance: in the tree with the box, the flags the draw step
    sees are the declared ones, the ground plane is in no shadow-map pass
    and is drawn shadowed, and the box is in the pass and is drawn
    unshadowed. *)
Lemma scene_shadow_flags_witness :
  let tree := Scene.App_with_box nat [1; 1; 1]%Q [1; 0; 0]%Q in
  let box := Scene.Box nat [1; 1; 1]%Q [1; 0; 0]%Q in
  Scene.castShadow (Scene.attrs_of (Scene.Plane nat)) = false
  /\ ~ In (Scene.item_of (Scene.Plane nat))
          (Scene.shadow_map_pass (Scene.draw_list tree))
  /\ Scene.receiveShadow (Scene.attrs_of box) = false
  /\ Scene.shadowed (Scene.item_of box) (Scene.draw_list tree) = false
  /\ Scene.shadow_map_pass (Scene.draw_list tree) =
     [Scene.item_of (Scene.spotLight_node nat); Scene.item_of box]
  /\ List.map (fun it => (Scene.casts it, Scene.receives it)) (Scene.draw_list tree)
     = [(false, false); (false, false); (true, false); (false, false);
        (false, false); (false, true); (true, false)]
  /\ (In box (flat_map Scene.nodes tree)
      /\ In (Scene.item_of box) (Scene.shadow_map_pass (Scene.draw_list tree)))
  /\ Scene.shadowed (Scene.item_of (Scene.Plane nat)) (Scene.draw_list tree) = true.
Proof.
  intros tree box.
  assert (Hbox : In box (flat_map Scene.nodes tree))
    by (simpl; do 6 right; left; reflexivity).
  destruct (@scene_shadow_flags nat tree (Scene.draw_list tree) [1; 1; 1]%Q [1; 0; 0]%Q)
    as (_ & Hflags & _ & Hcast & Hin & Hrecv & Hshadowed & _).
  split; [reflexivity|]. split; [apply Hcast; reflexivity|].
  split; [reflexivity|]. split; [apply Hrecv; reflexivity|].
  split; [reflexivity|].
  split.
  - change (List.map (fun it => (Scene.casts it, Scene.receives it)) (Scene.draw_list tree))
      with (List.map (fun t : Scene.Kind nat * bool * bool => (snd (fst t), snd t))
              (List.map (fun it => (Scene.what it, Scene.casts it, Scene.receives it))
                        (Scene.draw_list tree))).
    rewrite Hflags. reflexivity.
  - split; [split; [exact Hbox|apply Hin; [exact Hbox|reflexivity]]|].
    rewrite Hshadowed. reflexivity.
Defined.

(* ===================================================================== *)
(** * Further properties of the components *)
(* ===================================================================== *)

(** ** Box: the two flags under any sequence of events *)

Section Box_state_facts.

Lemma box_state_eq (s1 s2 : Box.State) :
  Box.hover s1 = Box.hover s2 -> Box.active s1 = Box.active s2 -> s1 = s2.
Proof. destruct s1, s2; simpl; intros -> ->; reflexivity. Qed.

Lemma box_fold_app (a b : list Box.PointerEvent) (s : Box.State) :
  fold_left Box.handle (a ++ b) s = fold_left Box.handle b (fold_left Box.handle a s).
Proof. apply fold_left_app. Qed.

Lemma box_clicks_keep_hover (cs : list Box.PointerEvent) (s : Box.State) :
  forallb Box.is_click cs = true ->
  Box.hover (fold_left Box.handle cs s) = Box.hover s.
Proof.
  revert s. induction cs as [|e cs IH]; intros s H; [reflexivity|].
  simpl in H. apply andb_prop in H. destruct H as [He Hcs].
  destruct e; try discriminate He. simpl. now rewrite IH.
Qed.

Lemma box_filter_hover_twice (evs : list Box.PointerEvent) :
  List.filter Box.is_hover_event (List.filter Box.is_hover_event evs)
  = List.filter Box.is_hover_event evs.
Proof.
  induction evs as [|e evs IH]; [reflexivity|].
  destruct e; simpl; now rewrite ?IH.
Qed.

Lemma box_filter_click_twice (evs : list Box.PointerEvent) :
  List.filter Box.is_click (List.filter Box.is_click evs)
  = List.filter Box.is_click evs.
Proof.
  induction evs as [|e evs IH]; [reflexivity|].
  destruct e; simpl; now rewrite ?IH.
Qed.

Lemma box_filter_hover_of_clicks (evs : list Box.PointerEvent) :
  List.filter Box.is_hover_event (List.filter Box.is_click evs) = [].
Proof.
  induction evs as [|e evs IH]; [reflexivity|]. destruct e; simpl; exact IH.
Qed.

Lemma box_filter_click_of_hovers (evs : list Box.PointerEvent) :
  List.filter Box.is_click (List.filter Box.is_hover_event evs) = [].
Proof.
  induction evs as [|e evs IH]; [reflexivity|]. destruct e; simpl; exact IH.
Qed.

(** X1. After any sequence of events, [active] is the flag the box
    started with, flipped once per click: from the initial state it is set
    exactly when the number of clicks so far is odd. *)
Theorem box_active_click_parity (evs : list Box.PointerEvent) (s : Box.State) :
  Box.active (fold_left Box.handle evs s)
  = xorb (Box.active s) (Nat.odd (List.length (List.filter Box.is_click evs))).
Proof.
  revert s. induction evs as [|e evs IH]; intros s.
  - simpl. now rewrite xorb_false_r.
  - destruct e; simpl fold_left; rewrite IH; simpl; try reflexivity.
    rewrite Nat.odd_succ, <- Nat.negb_odd.
    destruct (Box.active s), (Nat.odd _); reflexivity.
Qed.

(** X2. [hover] follows the last pointer-over or pointer-out: after a
    pointer-over it is set, after a pointer-out it is unset, and clicks
    that come afterwards leave it as it is, whatever happened before. *)
Theorem box_hover_last_event
  (before clicks : list Box.PointerEvent) (s : Box.State) :
  forallb Box.is_click clicks = true ->
  Box.hover (fold_left Box.handle (before ++ Box.PointerOver :: clicks) s) = true
  /\ Box.hover (fold_left Box.handle (before ++ Box.PointerOut :: clicks) s) = false.
Proof.
  intros H. rewrite !box_fold_app. simpl fold_left.
  rewrite !(box_clicks_keep_hover clicks _ H). split; reflexivity.
Qed.

(** X3. Pointer-over / pointer-out and clicks do not interfere: the state
    after any sequence of events is the state after the same over / out
    events followed by the same clicks. *)
Theorem box_events_factor (evs : list Box.PointerEvent) (s : Box.State) :
  fold_left Box.handle evs s
  = fold_left Box.handle
      (List.filter Box.is_hover_event evs ++ List.filter Box.is_click evs) s.
Proof.
  apply box_state_eq.
  - rewrite (box_hover_ignores_clicks evs).
    rewrite (box_hover_ignores_clicks (_ ++ _)).
    rewrite filter_app, box_filter_hover_twice, box_filter_hover_of_clicks.
    now rewrite app_nil_r.
  - rewrite (box_active_ignores_hover evs).
    rewrite (box_active_ignores_hover (_ ++ _)).
    rewrite filter_app, box_filter_click_twice, box_filter_click_of_hovers.
    reflexivity.
Qed.

(** X4. The props handed to the spring tell the state of the box: two
    states with the same colour and scale have the same flags. *)
Theorem box_spring_props_injective (s1 s2 : Box.State) :
  Box.spring_props s1 = Box.spring_props s2 -> s1 = s2.
Proof.
  destruct s1 as [h1 a1], s2 as [h2 a2]. unfold Box.spring_props. simpl.
  intros H. injection H as Hs Hc.
  destruct h1, h2, a1, a2; try reflexivity; discriminate.
Qed.

End Box_state_facts.

(** A concrete instance: hovering, then clicking three times. *)
Lemma box_hover_last_event_witness :
  let before := [Box.PointerOut; Box.Click; Box.PointerOver; Box.PointerOut] in
  let clicks := [Box.Click; Box.Click; Box.Click] in
  forallb Box.is_click clicks = true
  /\ Box.hover (fold_left Box.handle (before ++ Box.PointerOver :: clicks) Box.initial)
     = true
  /\ Box.hover (fold_left Box.handle (before ++ Box.PointerOut :: clicks) Box.initial)
     = false.
Proof.
  intros before clicks. split; [reflexivity|].
  exact (box_hover_last_event before clicks Box.initial eq_refl).
Defined.

(** A concrete instance: a state reached by events and the initial state. *)
Lemma box_spring_props_injective_witness :
  let s := fold_left Box.handle
             [Box.PointerOver; Box.Click; Box.PointerOut; Box.Click] Box.initial in
  Box.spring_props s = Box.spring_props Box.initial /\ s = Box.initial.
Proof.
  intros s. split; [reflexivity|].
  apply (box_spring_props_injective s Box.initial). reflexivity.
Defined.

(** ** App: the tree at every moment of the load *)

Section App_tree_facts.

Context {Object3D ErrorEvent : Type}.

Local Abbreviation tree_at evs :=
  (Scene.App Object3D
     (ShibaGLTF.render
        (ShibaGLTF.model
           (ShibaGLTF.run (@ShibaGLTF.mount Object3D ErrorEvent) evs)))).

(** X5. At every moment the tree [App] describes lists, node by node
    with kind and props, as the tree with no model does, unchanged and in
    the same order, followed by one [primitive] node with default props
    once the loader has reported a model, and by nothing otherwise; that
    node is the second child of the group, after the ground plane. *)
Theorem app_tree_static_plus_model
  (evs : list (ShibaGLTF.Event Object3D ErrorEvent)) :
  let added :=
    match ShibaGLTF.first_settled evs with
    | Some (ShibaGLTF.Loaded g) =>
        [Scene.Node (Scene.primitive (ShibaGLTF.scene g)) Scene.defaults []]
    | _ => []
    end in
  List.map (fun n => (Scene.kind_of n, Scene.attrs_of n))
           (flat_map Scene.nodes (tree_at evs))
  = (List.map (fun n => (Scene.kind_of n, Scene.attrs_of n))
              (flat_map Scene.nodes (Scene.App Object3D None))
     ++ List.map (fun n => (Scene.kind_of n, Scene.attrs_of n)) added)%list
  /\ List.map (fun n => (Scene.kind_of n, Scene.attrs_of n)) (tree_at evs)
     = List.map (fun n => (Scene.kind_of n, Scene.attrs_of n))
                (Scene.App Object3D None)
  /\ nth_error (tree_at evs) 4
     = Some (Scene.Node Scene.group Scene.defaults
               (Scene.PlaneGLTF Object3D :: added)).
Proof.
  rewrite shiba_run_mount.
  destruct (ShibaGLTF.first_settled evs) as [[g|e]|]; repeat split; reflexivity.
Qed.

(** X6. At every moment of the load, the only node of the tree of [App]
    that declares [castShadow] is the spot light and the only one that
    declares [receiveShadow] is the ground plane: the node of the loaded
    model declares neither. *)
Theorem app_tree_shadow_declarations
  (evs : list (ShibaGLTF.Event Object3D ErrorEvent)) :
  List.filter (fun n => Scene.castShadow (Scene.attrs_of n))
              (flat_map Scene.nodes (tree_at evs))
  = [Scene.spotLight_node Object3D]
  /\ List.filter (fun n => Scene.receiveShadow (Scene.attrs_of n))
                 (flat_map Scene.nodes (tree_at evs))
     = [Scene.PlaneGLTF Object3D].
Proof.
  rewrite shiba_run_mount.
  destruct (ShibaGLTF.first_settled evs) as [[g|e]|]; split; reflexivity.
Qed.

End App_tree_facts.
